(** * Salary dashboards: the filtering and aggregation pipeline

    A shallow embedding of the pandas pipeline of [Home.py] and of the pages
    under [pages/]: the sidebar filter, the KPI block, the growth insight,
    the 99th-percentile trimming, the top-10 ranking and the two-role
    comparison, together with the properties the dashboards rely on.

    Conventions of the embedding.
    - A validated data set is a [Table]: the list of its rows, in index
      order.  A data set as it comes out of [pd.read_csv] is a [DataFrame]:
      a header and rows of cells.
    - float64 columns are idealised: finite values are exact rationals
      ([Q]); the special values that numpy arithmetic produces instead of
      raising ([inf], [-inf], [nan]) are kept, see [float64].
    - Python exceptions are values of [exn] carried by [result];
      [st.stop()] is the [Stopped] outcome of a page.
    - Strings are compared as Python compares [str]: lexicographically by
      code point ([String.compare] on the UTF-8 bytes orders the same way). *)

From Stdlib Require Import List ZArith QArith Qround String Ascii Bool Arith Lia.
From Stdlib Require Import Permutation Sorted Morphisms RelationClasses OrderedTypeEx.
Import ListNotations.

Local Open Scope string_scope.
Local Open Scope list_scope.
Local Open Scope Z_scope.
Local Open Scope Q_scope.

(** [len] of a table or of a column; [String.length] is never meant. *)
Abbreviation length := List.length (only parsing).

(** ** Values *)

(** A float64 as numpy computes with it: a finite value or one of the
    IEEE-754 special values.  Signed zeros are not distinguished. *)
Inductive float64 : Type :=
| Fin (q : Q)
| PInf
| NInf
| NaN.

(** The exceptions the pages can raise. *)
Inductive exn : Type :=
| KeyError (key : string)
| IndexError
| TypeError
| StreamlitValueOutOfRangeError.

Inductive result (A : Type) : Type :=
| Ok (a : A)
| Raise (e : exn).
Arguments Ok {A} a.
Arguments Raise {A} e.

Definition bind {A B : Type} (m : result A) (k : A -> result B) : result B :=
  match m with
  | Ok a => k a
  | Raise e => Raise e
  end.

Notation "x <- m ;; k" := (bind m (fun x => k))
  (at level 61, m at next level, right associativity).

(** *** float64 arithmetic (numpy: no exception on division by zero) *)

Definition Qsign (q : Q) : comparison := q ?= 0.

Definition fneg (x : float64) : float64 :=
  match x with
  | Fin q => Fin (- q)
  | PInf => NInf
  | NInf => PInf
  | NaN => NaN
  end.

Definition fadd (x y : float64) : float64 :=
  match x, y with
  | NaN, _ | _, NaN => NaN
  | Fin a, Fin b => Fin (a + b)
  | PInf, NInf | NInf, PInf => NaN
  | PInf, _ | _, PInf => PInf
  | NInf, _ | _, NInf => NInf
  end.

Definition fsub (x y : float64) : float64 := fadd x (fneg y).

(** The sign of a float64 as a factor: [Lt], [Eq] (zero) or [Gt]. *)
Definition fsign (x : float64) : option comparison :=
  match x with
  | Fin q => Some (Qsign q)
  | PInf => Some Gt
  | NInf => Some Lt
  | NaN => None
  end.

Definition inf_of_sign (s : comparison) : float64 :=
  match s with
  | Gt => PInf
  | Lt => NInf
  | Eq => NaN
  end.

Definition sign_mul (s t : comparison) : comparison :=
  match s, t with
  | Eq, _ | _, Eq => Eq
  | Gt, Gt | Lt, Lt => Gt
  | Gt, Lt | Lt, Gt => Lt
  end.

Definition fmul (x y : float64) : float64 :=
  match x, y with
  | Fin a, Fin b => Fin (a * b)
  | _, _ =>
      match fsign x, fsign y with
      | Some s, Some t => inf_of_sign (sign_mul s t)
      | _, _ => NaN
      end
  end.

(** [x / y]: a finite value over zero is an infinity of the sign of the
    numerator and [0 / 0] is [nan]; numpy warns and goes on. *)
Definition fdiv (x y : float64) : float64 :=
  match x, y with
  | NaN, _ | _, NaN => NaN
  | Fin a, Fin b =>
      match Qsign b with
      | Eq => inf_of_sign (Qsign a)
      | _ => Fin (a / b)
      end
  | Fin _, _ => Fin 0
  | _, Fin b =>
      match fsign x, Qsign b with
      | Some s, Lt => inf_of_sign (sign_mul s Lt)
      | Some s, _ => inf_of_sign s
      | None, _ => NaN
      end
  | _, _ => NaN
  end.

(** [x <= y] on float64: false as soon as one side is [nan]. *)
Definition fleb (x y : float64) : bool :=
  match x, y with
  | NaN, _ | _, NaN => false
  | Fin a, Fin b => Qle_bool a b
  | NInf, _ | _, PInf => true
  | _, _ => false
  end.

(** [x > y] on float64. *)
Definition fgtb (x y : float64) : bool :=
  match x, y with
  | NaN, _ | _, NaN => false
  | _, _ => negb (fleb x y)
  end.

Definition isnan (x : float64) : bool :=
  match x with
  | NaN => true
  | _ => false
  end.

Definition of_nat (n : nat) : Q := inject_Z (Z.of_nat n).

(** ** Generic list operations behind the pandas calls *)

Section ListOps.
Context {A : Type}.

(** [Series.isin(values)] at one element. *)
Definition isin (eqb : A -> A -> bool) (x : A) (values : list A) : bool :=
  existsb (eqb x) values.

(** [Series.unique()]: the distinct values in order of first appearance. *)
Fixpoint unique (eqb : A -> A -> bool) (l : list A) : list A :=
  match l with
  | [] => []
  | x :: t => x :: filter (fun y => negb (eqb x y)) (unique eqb t)
  end.

Definition nunique (eqb : A -> A -> bool) (l : list A) : nat :=
  length (unique eqb l).

(** How many elements of [l] equal [x]. *)
Definition count (eqb : A -> A -> bool) (x : A) (l : list A) : nat :=
  length (filter (eqb x) l).

(** A stable sort (numpy's [kind="mergesort"|"stable"]): the output of a
    stable sort is determined by the input and the order, so straight
    insertion stands for it. *)
Fixpoint insert (leb : A -> A -> bool) (x : A) (l : list A) : list A :=
  match l with
  | [] => [x]
  | y :: t => if leb x y then x :: y :: t else y :: insert leb x t
  end.

Definition sort (leb : A -> A -> bool) (l : list A) : list A :=
  fold_right (insert leb) [] l.

(** [.iloc[0]] *)
Definition iloc0 (l : list A) : result A :=
  match l with
  | [] => Raise IndexError
  | x :: _ => Ok x
  end.

Definition empty (l : list A) : bool :=
  match l with
  | [] => true
  | _ :: _ => false
  end.

(** [st.selectbox(label, options, index=i)] refuses a preselected index that
    is not a position of [options]; it has no complaint when there is no
    option at all (it then returns [None]).  What it returns otherwise is
    the choice of the user, an argument of the page. *)
Definition selectbox_accepts (options : list A) (index : nat) : bool :=
  empty options || (index <? length options)%nat.
End ListOps.

(** ** Series reductions *)

Definition Qsum (xs : list Q) : Q := fold_right Qplus 0 xs.

(** The mean of a non-empty list of finite values. *)
Definition Qmean (xs : list Q) : Q := Qsum xs / of_nat (length xs).

(** [Series.mean()]: [nan] on an empty series.  The mean is exact here;
    the float64 mean of the code agrees with it up to rounding (and
    overflows to [inf] at the far end of the range), so it may differ from
    it in the last digits.  No property below compares a mean with the
    values it averages. *)
Definition mean (xs : list Q) : float64 :=
  match xs with
  | [] => NaN
  | _ :: _ => Fin (Qmean xs)
  end.

(** [Series.max()]: [nan] on an empty series. *)
Definition max (xs : list Q) : float64 :=
  match xs with
  | [] => NaN
  | x :: t => Fin (fold_right (fun y m => if Qle_bool m y then y else m) x t)
  end.

(** numpy's [_lerp]: [a + (b - a) * t], computed from [b] when [t >= 0.5]. *)
Definition lerp (a b t : Q) : Q :=
  if Qle_bool (1 # 2) t then b - (b - a) * (1 - t) else a + (b - a) * t.

(** [Series.quantile(q)] with the default [interpolation="linear"]: the
    virtual index [q * (n - 1)] into the sorted values, interpolated between
    its two neighbours; [nan] on an empty series. *)
Definition quantile (q : Q) (xs : list Q) : float64 :=
  match sort Qle_bool xs with
  | [] => NaN
  | (x0 :: _) as s =>
      let n := length s in
      let virtual := q * (of_nat n - 1) in
      let previous := Qfloor virtual in
      let next := Z.min (previous + 1) (Z.of_nat n - 1) in
      let gamma := virtual - inject_Z previous in
      Fin (lerp (nth (Z.to_nat previous) s x0) (nth (Z.to_nat next) s x0) gamma)
  end.

(** [Series.median()] is the 0.5-quantile. *)
Definition median (xs : list Q) : float64 := quantile (1 # 2) xs.

(** [Series.mode()]: the most frequent values, sorted. *)
Definition mode (l : list string) : list string :=
  let u := unique String.eqb l in
  let top := fold_right Nat.max 0%nat (map (fun x => count String.eqb x l) u) in
  sort String.leb (filter (fun x => Nat.eqb (count String.eqb x l) top) u).

(** [Series.value_counts()]: the distinct values with their number of
    occurrences, the most frequent first. *)
Definition value_counts {A : Type} (eqb : A -> A -> bool) (l : list A)
  : list (A * nat) :=
  sort (fun a b => Nat.leb (snd b) (snd a))
       (map (fun x => (x, count eqb x l)) (unique eqb l)).

(** [DataFrame.groupby(key)]: one group per distinct key, the groups in
    ascending key order (pandas' default [sort=True]), each holding its rows
    in table order. *)
Section GroupBy.
Context {R K : Type} (eqb leb : K -> K -> bool).

Definition groupby (key : R -> K) (df : list R) : list (K * list R) :=
  map (fun k => (k, filter (fun r => eqb (key r) k) df))
      (sort leb (unique eqb (map key df))).

(** [.groupby(key)[value].mean()]; a group is never empty, so its mean is
    finite. *)
Definition groupby_mean (key : R -> K) (value : R -> Q) (df : list R)
  : list (K * Q) :=
  map (fun g => (fst g, Qmean (map value (snd g)))) (groupby key df).

(** [.groupby(key)[value].agg(mean, median)] *)
Definition groupby_agg (key : R -> K) (value : R -> Q) (df : list R)
  : list (K * (float64 * float64)) :=
  map (fun g => (fst g, (mean (map value (snd g)), median (map value (snd g)))))
      (groupby key df).

(** [.nlargest(n, column)] with the default [keep="first"]: the first [n]
    rows in descending order of the column, rows with equal values in
    their order in the frame. *)
Definition nlargest (n : nat) (l : list (K * Q)) : list (K * Q) :=
  firstn n (sort (fun a b => Qle_bool (snd b) (snd a)) l).

(** [.sort_values(column)], ascending.  pandas leaves the order of rows
    with equal values to the sorting algorithm; the model keeps them in
    frame order, and no property below depends on that order. *)
Definition sort_values (l : list (K * Q)) : list (K * Q) :=
  sort (fun a b => Qle_bool (snd a) (snd b)) l.

(** The ranking both dashboards draw:
    [.groupby(key, as_index=False)[value].mean().nlargest(n, value)
     .sort_values(value)]. *)
Definition topN (key : R -> K) (value : R -> Q) (n : nat) (df : list R)
  : list (K * Q) :=
  sort_values (nlargest n (groupby_mean key value df)).
End GroupBy.

(** [Series.pct_change()]: [data / data.shift(1) - 1]. *)
Definition shift1 (s : list float64) : list float64 := removelast (NaN :: s).

Definition pct_change (s : list float64) : list float64 :=
  map (fun xp => fsub (fdiv (fst xp) (snd xp)) (Fin 1)) (combine s (shift1 s)).

Definition fsum (s : list float64) : float64 := fold_right fadd (Fin 0) s.

(** [Series.mean()] on a float64 series: [nan] entries are skipped. *)
Definition nanmean (s : list float64) : float64 :=
  match filter (fun x => negb (isnan x)) s with
  | [] => NaN
  | (_ :: _) as v => fdiv (fsum v) (Fin (of_nat (length v)))
  end.

(** ** The data set *)

(** A cell of a frame read from CSV. *)
Inductive cell : Type :=
| Int (z : Z)
| Flt (q : Q)
| Str (s : string).

Definition cell_eqb (a b : cell) : bool :=
  match a, b with
  | Int x, Int y => Z.eqb x y
  | Flt x, Flt y => Qeq_bool x y
  | Str x, Str y => String.eqb x y
  | _, _ => false
  end.

(** What [pd.read_csv] returns: the header and the rows, each row aligned
    with the header. *)
Record DataFrame : Type := {
  columns : list string;
  values : list (list cell)
}.

(** One salary observation, once the required columns are known to be
    there. *)
Record Row : Type := {
  Year : Z;
  Experience_Level : string;
  Employment_Type : string;
  Company_Size : string;
  Salary_In_Usd : Q;
  Job_Title : string;
  Remote_Ratio : cell;
  Employee_Residence_Iso3 : string
}.

Definition Table : Type := list Row.

(** [required.issubset(df.columns)] *)
Definition issubset (required cols : list string) : bool :=
  forallb (fun c => isin String.eqb c cols) required.

(** [row[name]] *)
Fixpoint getitem (cols : list string) (row : list cell) (name : string)
  : result cell :=
  match cols, row with
  | c :: cols', v :: row' =>
      if String.eqb c name then Ok v else getitem cols' row' name
  | _, _ => Raise (KeyError name)
  end.

(** [df[name]] *)
Definition column (df : DataFrame) (name : string) : result (list cell) :=
  if isin String.eqb name (columns df)
  then fold_right (fun row acc => v <- getitem (columns df) row name ;;
                                  vs <- acc ;; Ok (v :: vs))
                  (Ok []) (values df)
  else Raise (KeyError name).

(** Cells read at the dtype a computation needs; a cell of another dtype
    makes the computation raise. *)
Definition as_int (c : cell) : result Z :=
  match c with
  | Int z => Ok z
  | _ => Raise TypeError
  end.

Definition as_num (c : cell) : result Q :=
  match c with
  | Int z => Ok (inject_Z z)
  | Flt q => Ok q
  | Str _ => Raise TypeError
  end.

Definition as_str (c : cell) : result string :=
  match c with
  | Str s => Ok s
  | _ => Raise TypeError
  end.

Fixpoint traverse {A B : Type} (f : A -> result B) (l : list A)
  : result (list B) :=
  match l with
  | [] => Ok []
  | x :: t => y <- f x ;; ys <- traverse f t ;; Ok (y :: ys)
  end.

(** The names of the eight columns in a data set: the English dashboard and
    the Portuguese pages read the same columns under different names. *)
Record Schema : Type := {
  year_col : string;
  level_col : string;
  type_col : string;
  size_col : string;
  salary_col : string;
  title_col : string;
  remote_col : string;
  residence_col : string
}.

Definition required_columns (s : Schema) : list string :=
  [year_col s; level_col s; type_col s; size_col s;
   salary_col s; title_col s; remote_col s; residence_col s].

Definition to_row (s : Schema) (cols : list string) (row : list cell)
  : result Row :=
  y <- bind (getitem cols row (year_col s)) as_int ;;
  l <- bind (getitem cols row (level_col s)) as_str ;;
  t <- bind (getitem cols row (type_col s)) as_str ;;
  z <- bind (getitem cols row (size_col s)) as_str ;;
  u <- bind (getitem cols row (salary_col s)) as_num ;;
  j <- bind (getitem cols row (title_col s)) as_str ;;
  r <- getitem cols row (remote_col s) ;;
  c <- bind (getitem cols row (residence_col s)) as_str ;;
  Ok {| Year := y; Experience_Level := l; Employment_Type := t;
        Company_Size := z; Salary_In_Usd := u; Job_Title := j;
        Remote_Ratio := r; Employee_Residence_Iso3 := c |}.

Definition to_table (s : Schema) (df : DataFrame) : result Table :=
  traverse (to_row s (columns df)) (values df).

(** What running a page script ends in. *)
Inductive alert : Type :=
| st_error (message : string)
| st_warning (message : string).

Inductive outcome (V : Type) : Type :=
| Rendered (view : V)
| Stopped (shown : alert)
| Raised (e : exn).
Arguments Rendered {V} view.
Arguments Stopped {V} shown.
Arguments Raised {V} e.

Definition run {A V : Type} (m : result A) (k : A -> outcome V) : outcome V :=
  match m with
  | Ok a => k a
  | Raise e => Raised e
  end.

(** ** Home.py *)

Module Home.

Definition REQUIRED_COLUMNS : list string :=
  ["Year"; "Experience_Level"; "Employment_Type"; "Company_Size";
   "Salary_In_Usd"; "Job_Title"; "Remote_Ratio"; "Employee_Residence_Iso3"].

Definition schema : Schema :=
  {| year_col := "Year"; level_col := "Experience_Level";
     type_col := "Employment_Type"; size_col := "Company_Size";
     salary_col := "Salary_In_Usd"; title_col := "Job_Title";
     remote_col := "Remote_Ratio";
     residence_col := "Employee_Residence_Iso3" |}.

(** Lines 80-87. *)
Definition filter_data (df : Table) (years : list Z)
    (experience_levels employment_types company_sizes : list string) : Table :=
  filter (fun r =>
            isin Z.eqb (Year r) years &&
            isin String.eqb (Experience_Level r) experience_levels &&
            isin String.eqb (Employment_Type r) employment_types &&
            isin String.eqb (Company_Size r) company_sizes)
         df.

(** Lines 102-111: the KPI block. *)
Record KPIs : Type := {
  average_salary : float64;
  median_salary : float64;
  maximum_salary : float64;
  total_records : nat;
  most_frequent_job_title : string
}.

Definition kpis (df_filtered : Table) : result KPIs :=
  if empty df_filtered then
    Ok {| average_salary := Fin 0; median_salary := Fin 0;
          maximum_salary := Fin 0; total_records := 0;
          most_frequent_job_title := "-" |}
  else
    let salary := map Salary_In_Usd df_filtered in
    title <- iloc0 (mode (map Job_Title df_filtered)) ;;
    Ok {| average_salary := mean salary; median_salary := median salary;
          maximum_salary := max salary; total_records := length df_filtered;
          most_frequent_job_title := title |}.

(** Lines 123-129: the growth figure, computed only when the filtered
    table has rows of more than one year. *)
Definition growth (df_filtered : Table) : option float64 :=
  if negb (empty df_filtered)
     && (1 <? nunique Z.eqb (map Year df_filtered))%nat
  then Some (fmul (nanmean (pct_change
                     (map (fun g => Fin (snd g))
                          (groupby_mean Z.eqb Z.leb Year Salary_In_Usd
                                        df_filtered))))
                  (Fin 100))
  else None.

(** Lines 131-134: what is shown of it.  The message follows the sign of
    the figure as computed; where the exact figure is zero the rounding of
    the code decides, so the properties below state the message by the
    figure, not by the yearly means. *)
Inductive insight : Type :=
| growth_trend (g : float64)
| decrease_trend (g : float64).

Definition trend (df_filtered : Table) : option insight :=
  match growth df_filtered with
  | Some g => Some (if fgtb g (Fin 0) then growth_trend g else decrease_trend g)
  | None => None
  end.

(** Lines 141-145, for a percentile [p] in place of the literal 0.99. *)
Definition outlier_removal (p : Q) (df_filtered : Table) : Table :=
  if negb (empty df_filtered) then
    let limit := quantile p (map Salary_In_Usd df_filtered) in
    filter (fun r => fleb (Fin (Salary_In_Usd r)) limit) df_filtered
  else df_filtered.

Definition df_vis (df_filtered : Table) : Table :=
  outlier_removal (99 # 100) df_filtered.

(** Lines 155-161. *)
Definition top_job_titles (df_vis : Table) : option (list (string * Q)) :=
  if negb (empty df_vis)
  then Some (topN String.eqb String.leb Job_Title Salary_In_Usd 10 df_vis)
  else None.

(** Lines 190-192. *)
Definition remote_ratio (df_vis : Table) : option (list (cell * nat)) :=
  if negb (empty df_vis)
  then Some (value_counts cell_eqb (map Remote_Ratio df_vis))
  else None.

(** Lines 207-215. *)
Definition average_country_salary (df_vis : Table)
  : option (list (string * Q)) :=
  let df_ds := filter (fun r => String.eqb (Job_Title r) "Data Scientist") df_vis in
  if empty df_ds then None
  else Some (groupby_mean String.eqb String.leb
                          Employee_Residence_Iso3 Salary_In_Usd df_ds).

(** Lines 232-246. *)
Definition comparison (df_filtered : Table) (job_title_a job_title_b : string)
  : option (list (string * (float64 * float64))) :=
  if negb (empty df_filtered) then
    Some (groupby_agg String.eqb String.leb Job_Title Salary_In_Usd
            (filter (fun r => isin String.eqb (Job_Title r)
                                   [job_title_a; job_title_b])
                    df_filtered))
  else None.

(** What the page hands to the presentation layer. *)
Record View : Type := {
  view_warning : option alert;
  view_kpis : KPIs;
  view_trend : option insight;
  view_top_job_titles : option (list (string * Q));
  view_histogram : Table;
  view_remote_ratio : option (list (cell * nat));
  view_country : option (list (string * Q));
  view_comparison : option (list (string * (float64 * float64)));
  view_table : Table
}.

(** Lines 89-281: the script once the data set is validated. *)
Definition render (table : Table) (years : list Z)
    (experience_levels employment_types company_sizes : list string)
    (job_title_a job_title_b : string) : result View :=
  let df_filtered :=
    filter_data table years experience_levels employment_types company_sizes in
  k <- kpis df_filtered ;;
  let vis := df_vis df_filtered in
  Ok {| view_warning :=
          if empty df_filtered
          then Some (st_warning "No data found with the selected filters.")
          else None;
        view_kpis := k;
        view_trend := trend df_filtered;
        view_top_job_titles := top_job_titles vis;
        view_histogram := vis;
        view_remote_ratio := remote_ratio vis;
        view_country := average_country_salary vis;
        view_comparison := comparison df_filtered job_title_a job_title_b;
        view_table := df_filtered |}.

(** The script, top to bottom: lines 44-46 stop the page on a data set
    that lacks a required column. *)
Definition page (df : DataFrame) (years : list Z)
    (experience_levels employment_types company_sizes : list string)
    (job_title_a job_title_b : string) : outcome View :=
  if negb (issubset REQUIRED_COLUMNS (columns df)) then
    Stopped (st_error "The dataset does not contain all the necessary columns.")
  else
    run (to_table schema df) (fun table =>
    run (render table years experience_levels employment_types company_sizes
                job_title_a job_title_b)
        Rendered).

End Home.

(** ** pages/0_Main_Courts.py *)

Module Main_Courts.

Definition COLUNAS : list string :=
  ["ano"; "senioridade"; "contrato"; "tamanho_empresa";
   "usd"; "cargo"; "remoto"; "residencia_iso3"].

Definition schema : Schema :=
  {| year_col := "ano"; level_col := "senioridade"; type_col := "contrato";
     size_col := "tamanho_empresa"; salary_col := "usd"; title_col := "cargo";
     remote_col := "remoto"; residence_col := "residencia_iso3" |}.

(** The columns of this page's data set, under the names the page uses. *)
Definition ano : Row -> Z := Year.
Definition senioridade : Row -> string := Experience_Level.
Definition contrato : Row -> string := Employment_Type.
Definition tamanho_empresa : Row -> string := Company_Size.
Definition usd : Row -> Q := Salary_In_Usd.
Definition cargo : Row -> string := Job_Title.

(** Lines 64-71. *)
Definition filtrar (df : Table) (anos : list Z)
    (senioridades contratos tamanhos : list string) : Table :=
  filter (fun r =>
            isin Z.eqb (ano r) anos &&
            isin String.eqb (senioridade r) senioridades &&
            isin String.eqb (contrato r) contratos &&
            isin String.eqb (tamanho_empresa r) tamanhos)
         df.

(** Lines 75-77: the derived column.  Under EUR the model holds the exact
    product, where the code rounds each product to a float64: the values
    agree to the last digits, equalities between means may not; what is
    stated of values and of their order below is stated under USD. *)
Inductive moeda : Type := USD | EUR.

Definition TAXA_EUR : Q := 92 # 100.

Definition salario (m : moeda) (r : Row) : Q :=
  match m with
  | USD => usd r
  | EUR => usd r * TAXA_EUR
  end.

(** Lines 126-131. *)
Definition top_cargos (m : moeda) (df_f : Table) : list (string * Q) :=
  topN String.eqb String.leb cargo (salario m) 10 df_f.

(** [comp.loc[i, ...]] on a frame with a fresh range index. *)
Definition loc {A : Type} (l : list A) (i : nat) (label : string) : result A :=
  match nth_error l i with
  | Some x => Ok x
  | None => Raise (KeyError label)
  end.

(** Lines 175-180. *)
Definition comp (m : moeda) (df_f : Table) (c1 c2 : string)
  : list (string * (float64 * float64)) :=
  groupby_agg String.eqb String.leb cargo (salario m)
    (filter (fun r => isin String.eqb (cargo r) [c1; c2]) df_f).

(** Line 193. *)
Definition delta (comp : list (string * (float64 * float64))) : result float64 :=
  r1 <- loc comp 1 "1" ;;
  r0 <- loc comp 0 "0" ;;
  Ok (fmul (fsub (fdiv (fst (snd r1)) (fst (snd r0))) (Fin 1)) (Fin 100)).

Record View : Type := {
  view_medio : float64;
  view_mediano : float64;
  view_maximo : float64;
  view_registros : nat;
  view_evolucao : list (Z * Q);
  view_top_cargos : list (string * Q);
  view_comp : list (string * (float64 * float64));
  view_delta : float64
}.

(** Lines 171-173: the two role boxes offer the sorted roles of the whole
    data set; the second one opens on the option of index 1. *)
Definition cargos (table : Table) : list string :=
  sort String.leb (unique String.eqb (map cargo table)).

(** Lines 73-233: the script once the data set is validated (the heat map
    and the country ranking, which no property below reads, are left
    out).  An empty selection stops the page before any figure; [c1] and
    [c2] are the roles the user has chosen in the two boxes. *)
Definition render (table : Table) (m : moeda) (anos : list Z)
    (senioridades contratos tamanhos : list string) (c1 c2 : string)
  : outcome View :=
  let df_f := filtrar table anos senioridades contratos tamanhos in
  if empty df_f then
    Stopped (st_warning "Nenhum dado com os filtros selecionados.")
  else
    let s := map (salario m) df_f in
    if negb (selectbox_accepts (cargos table) 1) then
      Raised StreamlitValueOutOfRangeError
    else
      let cmp := comp m df_f c1 c2 in
      run (delta cmp) (fun d =>
      Rendered
        {| view_medio := mean s; view_mediano := median s;
           view_maximo := max s; view_registros := length df_f;
           view_evolucao := groupby_mean Z.eqb Z.leb ano (salario m) df_f;
           view_top_cargos := top_cargos m df_f;
           view_comp := cmp; view_delta := d |}).

(** The script, top to bottom: lines 45-47 stop the page on a data set
    that lacks a required column. *)
Definition page (df : DataFrame) (m : moeda) (anos : list Z)
    (senioridades contratos tamanhos : list string) (c1 c2 : string)
  : outcome View :=
  if negb (issubset COLUNAS (columns df)) then
    Stopped (st_error "Dataset inválido ou incompleto.")
  else
    run (to_table schema df) (fun table =>
    render table m anos senioridades contratos tamanhos c1 c2).

End Main_Courts.

(** ** pages/1_Overview.py *)

Module Overview.

Record View : Type := {
  view_average : float64;
  view_median : float64;
  view_total : nat
}.

(** No validation step: the page reads [df['usd']] straight away. *)
Definition page (df : DataFrame) : outcome View :=
  run (bind (column df "usd") (traverse as_num)) (fun usd =>
  Rendered {| view_average := mean usd; view_median := median usd;
              view_total := length (values df) |}).

End Overview.

(** ** pages/2_Work_Mode.py *)

Module Work_Mode.

Definition page (df : DataFrame) : outcome (list (cell * nat)) :=
  run (column df "remoto") (fun remoto =>
  Rendered (value_counts cell_eqb remoto)).

End Work_Mode.

(** ** pages/3_Role_Comparison.py *)

Module Role_Comparison.

(** Lines 33-38, on the rows read as (cargo, usd). *)
Definition comparison (rows : list (string * Q)) (role_a role_b : string)
  : list (string * (float64 * float64)) :=
  groupby_agg String.eqb String.leb fst snd
    (filter (fun r => isin String.eqb (fst r) [role_a; role_b]) rows).

(** [comparison.loc[comparison["cargo"] == role, "mean"].values[0]] *)
Definition mean_of (comparison : list (string * (float64 * float64)))
    (role : string) : result float64 :=
  iloc0 (map (fun g => fst (snd g))
             (filter (fun g => String.eqb (fst g) role) comparison)).

(** Lines 61-65: no figure when the same role is selected twice. *)
Definition diff (comparison : list (string * (float64 * float64)))
    (role_a role_b : string) : result (option float64) :=
  if negb (String.eqb role_a role_b) then
    avg_a <- mean_of comparison role_a ;;
    avg_b <- mean_of comparison role_b ;;
    Ok (Some (fmul (fdiv (fsub avg_a avg_b) avg_b) (Fin 100)))
  else Ok None.

Record View : Type := {
  view_comparison : list (string * (float64 * float64));
  view_diff : option float64
}.

(** Line 26: the options of the two role boxes. *)
Definition roles (cargo : list string) : list string :=
  sort String.leb (unique String.eqb cargo).

(** The script, top to bottom.  Lines 30-31: the second box opens on the
    option of index 1, which a data set with a single role does not have;
    [role_a] and [role_b] are the roles the user has chosen.  On a data set
    without rows both boxes return [None]: the comparison is empty and no
    figure is computed. *)
Definition page (df : DataFrame) (role_a role_b : string) : outcome View :=
  run (bind (column df "cargo") (traverse as_str)) (fun cargo =>
  if negb (selectbox_accepts (roles cargo) 1) then
    Raised StreamlitValueOutOfRangeError
  else
    run (bind (column df "usd") (traverse as_num)) (fun usd =>
    if empty (roles cargo) then
      Rendered {| view_comparison := []; view_diff := None |}
    else
      let cmp := comparison (combine cargo usd) role_a role_b in
      run (diff cmp role_a role_b) (fun d =>
      Rendered {| view_comparison := cmp; view_diff := d |}))).

End Role_Comparison.

(** ** The sidebars and the charts beside the ranking *)

(** Keys of a two-column [groupby]: pairs, compared component by component
    and ordered lexicographically, as Python orders tuples. *)
Definition pair_eqb (a b : string * string) : bool :=
  String.eqb (fst a) (fst b) && String.eqb (snd a) (snd b).

Definition pair_leb (a b : string * string) : bool :=
  if String.eqb (fst a) (fst b)
  then String.leb (snd a) (snd b)
  else String.leb (fst a) (fst b).

Module Home_Sidebar.

(** Home.py, lines 53-75: each multiselect offers the sorted distinct values
    of its column and opens with all of them selected. *)
Definition years (df : Table) : list Z :=
  sort Z.leb (unique Z.eqb (map Year df)).

Definition experience_levels (df : Table) : list string :=
  sort String.leb (unique String.eqb (map Experience_Level df)).

Definition employment_types (df : Table) : list string :=
  sort String.leb (unique String.eqb (map Employment_Type df)).

Definition company_sizes (df : Table) : list string :=
  sort String.leb (unique String.eqb (map Company_Size df)).

(** Line 89, as long as the user has touched no filter. *)
Definition df_filtered (df : Table) : Table :=
  Home.filter_data df (years df) (experience_levels df) (employment_types df)
                   (company_sizes df).

End Home_Sidebar.

Module Main_Courts_Charts.

(** 0_Main_Courts.py, lines 56-59: the options are sorted, the default is
    [df[column].unique()] as it comes. *)
Definition anos (df : Table) : list Z :=
  unique Z.eqb (map Main_Courts.ano df).

Definition senioridades (df : Table) : list string :=
  unique String.eqb (map Main_Courts.senioridade df).

Definition contratos (df : Table) : list string :=
  unique String.eqb (map Main_Courts.contrato df).

Definition tamanhos (df : Table) : list string :=
  unique String.eqb (map Main_Courts.tamanho_empresa df).

(** Line 73, as long as the user has touched no filter. *)
Definition df_f (df : Table) : Table :=
  Main_Courts.filtrar df (anos df) (senioridades df) (contratos df) (tamanhos df).

(** Lines 149-153: the mean salary per (senioridade, tamanho_empresa). *)
Definition heat (m : Main_Courts.moeda) (df_f : Table)
  : list ((string * string) * Q) :=
  groupby_mean pair_eqb pair_leb
               (fun r => (Main_Courts.senioridade r, Main_Courts.tamanho_empresa r))
               (Main_Courts.salario m) df_f.

(** Lines 201-206: [Series.nlargest(10)] on the mean salary per country;
    the frame is drawn as it comes out, largest mean first. *)
Definition ranking (m : Main_Courts.moeda) (df_f : Table) : list (string * Q) :=
  nlargest 10 (groupby_mean String.eqb String.leb Employee_Residence_Iso3
                            (Main_Courts.salario m) df_f).

End Main_Courts_Charts.

(** ** Vocabulary of the specification *)

(** [retains P l l']: [l'] is [l] with exactly the elements that satisfy [P]
    kept, in the order of [l]. *)
Inductive retains {A : Type} (P : A -> Prop) : list A -> list A -> Prop :=
| retains_nil : retains P [] []
| retains_keep x l l' : P x -> retains P l l' -> retains P (x :: l) (x :: l')
| retains_drop x l l' : ~ P x -> retains P l l' -> retains P (x :: l) l'.

(** A row passes a filter selection when its value in each of the four
    dimensions is one of the accepted values of that dimension. *)
Definition accepted (years : list Z)
    (experience_levels employment_types company_sizes : list string)
    (r : Row) : Prop :=
  In (Year r) years /\
  In (Experience_Level r) experience_levels /\
  In (Employment_Type r) employment_types /\
  In (Company_Size r) company_sizes.

(** The orders the sorts are run with: total and transitive, so that a
    stable sort has one possible output. *)
Class TotalPreorder {A : Type} (leb : A -> A -> bool) : Prop := {
  leb_total : forall a b, leb a b = true \/ leb b a = true;
  leb_trans : forall a b c, leb a b = true -> leb b c = true -> leb a c = true
}.

(** The dtype of a grouping column: decidable equality and a total order. *)
Class KeyOrder {K : Type} (eqb leb : K -> K -> bool) : Prop := {
  key_eqb : forall a b, eqb a b = true <-> a = b;
  key_preorder : TotalPreorder leb;
  key_antisym : forall a b, leb a b = true -> leb b a = true -> a = b
}.

(** The values of one group, and its row in an aggregated frame. *)
Definition group_values {R : Type} (key : R -> string) (value : R -> Q)
    (df : list R) (k : string) : list Q :=
  map value (filter (fun r => String.eqb (key r) k) df).

Definition agg_row {R : Type} (key : R -> string) (value : R -> Q)
    (df : list R) (k : string) : string * (float64 * float64) :=
  (k, (mean (group_values key value df k), median (group_values key value df k))).

(** [group_means key value df groups]: [groups] lists every group of rows
    of [df] sharing a key once, with the mean of [value] over the group. *)
Definition group_means {R K : Type} (key : R -> K) (value : R -> Q)
    (df : list R) (groups : list (K * Q)) : Prop :=
  NoDup (map fst groups) /\
  forall k m, In (k, m) groups <->
              In k (map key df) /\
              exists rows, retains (fun r => key r = k) df rows /\
                           m = Qmean (map value rows).

(** [selects_top n before groups top]: [top] is a choice of the [n] best of
    [groups]: at most [n] of them, none with a mean below that of a group
    left out, a tie on the mean between a group kept and a group left out
    going to the one that comes [before] the other, and every group kept
    when there are fewer than [n]. *)
Definition selects_top {K : Type} (n : nat) (before : K -> K -> Prop)
    (groups top : list (K * Q)) : Prop :=
  (length top <= n)%nat /\
  (forall g, In g top -> In g groups) /\
  (forall g h, In g top -> In h groups -> ~ In h top -> snd h <= snd g) /\
  (forall g h, In g top -> In h groups -> ~ In h top -> snd g == snd h ->
               before (fst g) (fst h)) /\
  ((length groups < n)%nat -> Permutation top groups).



(** Ties as [groupby] settles them: the smaller key wins. *)
Definition smaller_key (a b : string) : Prop := String.ltb a b = true.




(** What the dashboards draw: a choice of the [n] best groups, ties going
    to the smaller key, exactly [n] of them when there are that many, no
    group twice, in ascending order of the mean. *)
Definition ranking (n : nat) (groups top : list (string * Q)) : Prop :=
  selects_top n smaller_key groups top /\
  length top = Nat.min n (length groups) /\
  NoDup (map fst top) /\
  StronglySorted (fun a b => snd a <= snd b) top.

(** [linear_percentile p xs v]: [v] is the [p]-th percentile of [xs] by
    linear interpolation.  With the values in ascending order and numbered
    from 0, and [h = p * (n - 1)] falling between the ranks [i] and [i + 1],
    it is the value of rank [i] plus the fraction [h - i] of the step to the
    value of rank [i + 1] (no step when [i] is the last rank). *)
Definition linear_percentile (p : Q) (xs : list Q) (v : Q) : Prop :=
  exists (s : list Q) (i : nat) (lo hi : Q),
    Permutation s xs /\
    StronglySorted Qle s /\
    of_nat i <= p * (of_nat (length xs) - 1) < of_nat i + 1 /\
    nth_error s i = Some lo /\
    (nth_error s (S i) = Some hi \/ (S i = length xs /\ hi = lo)) /\
    v == lo + (p * (of_nat (length xs) - 1) - of_nat i) * (hi - lo).

(** [tallies eqb l vc]: [vc] tallies the values of [l]: every entry is a
    value of [l] with the number of its occurrences, every value of [l] is
    counted by an entry, the entries add up to the length of [l], and they
    come most frequent first. *)
Definition tallies {A : Type} (eqb : A -> A -> bool) (l : list A)
    (vc : list (A * nat)) : Prop :=
  (forall y c, In (y, c) vc -> In y l /\ c = count eqb y l) /\
  (forall x, In x l ->
             exists y, In (y, count eqb x l) vc /\ eqb y x = true) /\
  list_sum (map snd vc) = length l /\
  StronglySorted (fun a b => (snd b <= snd a)%nat) vc.

(** ** Sample tables *)

Definition observation (year : Z) (title : string) (salary : Q) : Row :=
  {| Year := year; Experience_Level := "SE"; Employment_Type := "FT";
     Company_Size := "M"; Salary_In_Usd := salary; Job_Title := title;
     Remote_Ratio := Int 0; Employee_Residence_Iso3 := "USA" |}.




(** Four ordinary salaries and an outlier. *)
Definition with_outlier : Table :=
  [observation 2021 "Data Analyst" 1;
   observation 2021 "Data Engineer" 100;
   observation 2022 "Data Analyst" 2;
   observation 2022 "Data Engineer" 3;
   observation 2023 "Data Analyst" 4].

(** Two titles with two rows each, the alphabetically later one first. *)
Definition tied_titles : Table :=
  [observation 2021 "Data Scientist" 100;
   observation 2021 "Data Analyst" 90;
   observation 2022 "Data Scientist" 110;
   observation 2022 "Data Analyst" 95;
   observation 2023 "Data Engineer" 120].



(** A data set with three of the eight columns the Portuguese pages name. *)
Definition three_columns : DataFrame :=
  {| columns := ["cargo"; "usd"; "remoto"];
     values := [[Str "Data Analyst"; Int 10; Str "remoto"];
                [Str "Data Engineer"; Int 20; Str "presencial"]] |}.

(** * Properties *)

(** ** Lists *)

Section ListFacts.
Context {A : Type}.
Implicit Types (l : list A) (f g : A -> bool).

Lemma filter_idem f l : filter f (filter f l) = filter f l.
Proof.
  induction l as [|x l IH]; simpl; [reflexivity|].
  destruct (f x) eqn:E; simpl; [rewrite E; f_equal|]; exact IH.
Qed.

Lemma filter_filter f g l :
  filter f (filter g l) = filter (fun x => g x && f x) l.
Proof.
  induction l as [|x l IH]; simpl; [reflexivity|].
  destruct (g x); simpl; [|exact IH].
  destruct (f x); simpl; [f_equal|]; exact IH.
Qed.

Lemma retains_filter (P : A -> Prop) f l :
  (forall x, f x = true <-> P x) -> retains P l (filter f l).
Proof.
  intros H. induction l as [|x l IH]; simpl; [constructor|].
  destruct (f x) eqn:E.
  - apply retains_keep; [apply H, E | exact IH].
  - apply retains_drop; [|exact IH].
    intros HP. apply H in HP. congruence.
Qed.

(** The relation leaves no choice: it is the graph of a function. *)
Lemma retains_unique (P : A -> Prop) l l1 l2 :
  retains P l l1 -> retains P l l2 -> l1 = l2.
Proof.
  intros H1. revert l2.
  induction H1; intros l2 H2; inversion H2; subst;
    try reflexivity; try contradiction.
  - f_equal. now apply IHretains.
  - now apply IHretains.
Qed.

Lemma retains_In (P : A -> Prop) l l' :
  retains P l l' -> forall x, In x l' <-> In x l /\ P x.
Proof.
  induction 1; intros y; simpl.
  - tauto.
  - rewrite IHretains. split.
    + intros [-> | [? ?]]; auto.
    + intros [[-> | ?] ?]; auto.
  - rewrite IHretains. split.
    + intros [? ?]; auto.
    + intros [[-> | ?] ?]; [contradiction|auto].
Qed.

Lemma retains_length (P : A -> Prop) l l' :
  retains P l l' -> (length l' <= length l)%nat.
Proof. induction 1; simpl; lia. Qed.

Lemma isin_In (eqb : A -> A -> bool) x values :
  (forall a b, eqb a b = true <-> a = b) ->
  isin eqb x values = true <-> In x values.
Proof.
  intros Heq. unfold isin. rewrite existsb_exists. split.
  - intros [y [Hy E]]. apply Heq in E. now subst.
  - intros H. exists x. split; [exact H | now apply Heq].
Qed.

Lemma empty_false l : empty l = false <-> l <> [].
Proof. destruct l; simpl; split; congruence. Qed.
End ListFacts.

(** ** The filter (Home.py, 0_Main_Courts.py) *)

Lemma accepted_iff years levels types sizes r :
  isin Z.eqb (Year r) years &&
  isin String.eqb (Experience_Level r) levels &&
  isin String.eqb (Employment_Type r) types &&
  isin String.eqb (Company_Size r) sizes = true
  <-> accepted years levels types sizes r.
Proof.
  unfold accepted. rewrite !andb_true_iff.
  rewrite (isin_In Z.eqb _ _ Z.eqb_eq).
  rewrite !(isin_In String.eqb _ _ String.eqb_eq).
  tauto.
Qed.

(** C1.  [filter_data] keeps exactly the rows whose year, experience level,
    employment type and company size are each among the accepted values of
    that dimension, in the order they have in the table; the result is
    empty as soon as one dimension accepts no value. *)
Theorem filter_data_retains_accepted :
  forall (df : Table) (years : list Z)
         (experience_levels employment_types company_sizes : list string),
    let out := Home.filter_data df years experience_levels employment_types
                                company_sizes in
    retains (accepted years experience_levels employment_types company_sizes)
            df out
    /\ (forall r, In r out <->
                  In r df /\ accepted years experience_levels employment_types
                                      company_sizes r)
    /\ (years = [] \/ experience_levels = [] \/ employment_types = []
        \/ company_sizes = [] -> out = []).
Proof.
  intros df years levels types sizes out.
  assert (R : retains (accepted years levels types sizes) df out).
  { apply retains_filter. intros r. apply accepted_iff. }
  split; [exact R|]. split; [apply retains_In, R|].
  intros Hempty.
  destruct out as [|r out'] eqn:E; [reflexivity|exfalso].
  assert (Hr : In r (r :: out')) by (left; reflexivity).
  apply (retains_In _ _ _ R) in Hr. destruct Hr as [_ (Hy & Hl & Ht & Hs)].
  destruct Hempty as [-> | [-> | [-> | ->]]]; contradiction.
Qed.

(** C9.  Filtering twice with the same selection gives what filtering once
    gives, for the filter of either dashboard. *)
Theorem filter_idempotent :
  forall (df : Table) (years : list Z)
         (experience_levels employment_types company_sizes : list string),
    Home.filter_data
      (Home.filter_data df years experience_levels employment_types company_sizes)
      years experience_levels employment_types company_sizes
    = Home.filter_data df years experience_levels employment_types company_sizes
    /\
    Main_Courts.filtrar
      (Main_Courts.filtrar df years experience_levels employment_types company_sizes)
      years experience_levels employment_types company_sizes
    = Main_Courts.filtrar df years experience_levels employment_types company_sizes.
Proof.
  intros. split; apply filter_idem.
Qed.

(** ** Orders *)

Lemma string_leb_iff (a b : string) :
  String.leb a b = true <-> a = b \/ String_as_OT.lt a b.
Proof.
  unfold String.leb.
  destruct (String.compare a b) eqn:E.
  - apply String_as_OT.cmp_eq in E. tauto.
  - apply String_as_OT.cmp_lt in E. tauto.
  - split; [discriminate|].
    intros [H|H].
    + apply String_as_OT.cmp_eq in H. unfold String_as_OT.cmp in H. congruence.
    + apply String_as_OT.cmp_lt in H. unfold String_as_OT.cmp in H. congruence.
Qed.

Lemma string_ltb_iff (a b : string) :
  String.ltb a b = true <-> String.leb a b = true /\ a <> b.
Proof.
  rewrite string_leb_iff. unfold String.ltb.
  destruct (String.compare a b) eqn:E.
  - apply String_as_OT.cmp_eq in E. split; [discriminate|tauto].
  - apply String_as_OT.cmp_lt in E. split; [|reflexivity].
    intros _. split; [tauto|]. now apply String_as_OT.lt_not_eq.
  - split; [discriminate|]. intros [[H|H] Hne]; [contradiction|].
    apply String_as_OT.cmp_lt in H. unfold String_as_OT.cmp in H. congruence.
Qed.

#[export] Instance string_preorder : TotalPreorder String.leb.
Proof.
  split.
  - apply String.leb_total.
  - intros a b c. rewrite !string_leb_iff.
    intros [->|Hab] [->|Hbc]; auto.
    right. eapply String_as_OT.lt_trans; eassumption.
Qed.

#[export] Instance string_key : KeyOrder String.eqb String.leb.
Proof.
  split.
  - apply String.eqb_eq.
  - exact string_preorder.
  - apply String.leb_antisym.
Qed.



#[export] Instance Q_preorder : TotalPreorder Qle_bool.
Proof.
  split.
  - intros a b. rewrite !Qle_bool_iff.
    destruct (Qlt_le_dec a b) as [H|H]; [left; now apply Qlt_le_weak | now right].
  - intros a b c. rewrite !Qle_bool_iff. apply Qle_trans.
Qed.



(** ** The stable sort *)

Section SortFacts.
Context {A : Type} (leb : A -> A -> bool).
Implicit Types (l : list A).

Lemma insert_perm x l : Permutation (insert leb x l) (x :: l).
Proof.
  induction l as [|y l IH]; simpl; [reflexivity|].
  destruct (leb x y); [reflexivity|].
  rewrite IH. apply perm_swap.
Qed.

Lemma sort_perm l : Permutation (sort leb l) l.
Proof.
  induction l as [|x l IH]; simpl; [reflexivity|].
  rewrite insert_perm. now apply perm_skip.
Qed.

Lemma sort_In l x : In x (sort leb l) <-> In x l.
Proof.
  split; apply Permutation_in; [|symmetry]; apply sort_perm.
Qed.

Lemma sort_length l : length (sort leb l) = length l.
Proof. apply Permutation_length, sort_perm. Qed.

Lemma sort_nil_iff l : sort leb l = [] <-> l = [].
Proof.
  split; [|intros ->; reflexivity].
  intros H. apply (f_equal (@List.length A)) in H. rewrite sort_length in H.
  now apply length_zero_iff_nil.
Qed.




Context `{!TotalPreorder leb}.

Lemma insert_sorted x l :
  StronglySorted (fun a b => leb a b = true) l ->
  StronglySorted (fun a b => leb a b = true) (insert leb x l).
Proof.
  induction 1 as [|y l Hs IH Hall]; simpl.
  - repeat constructor.
  - destruct (leb x y) eqn:E.
    + constructor; [now constructor|].
      constructor; [exact E|].
      eapply Forall_impl; [|exact Hall].
      intros z Hz. eapply leb_trans; eassumption.
    + constructor; [exact IH|].
      rewrite Forall_forall. intros z Hz.
      apply (Permutation_in _ (insert_perm x l)) in Hz.
      destruct Hz as [<-|Hz].
      * destruct (leb_total (leb := leb) x y); congruence.
      * rewrite Forall_forall in Hall. now apply Hall.
Qed.

Lemma sort_sorted l : StronglySorted (fun a b => leb a b = true) (sort leb l).
Proof.
  induction l as [|x l IH]; simpl; [constructor | now apply insert_sorted].
Qed.
End SortFacts.

Lemma StronglySorted_weaken {A : Type} (R R' : A -> A -> Prop) (l : list A) :
  (forall a b, R a b -> R' a b) -> StronglySorted R l -> StronglySorted R' l.
Proof.
  intros Himp. induction 1 as [|x l Hs IH Hall]; constructor; [exact IH|].
  eapply Forall_impl; [|exact Hall]. auto.
Qed.



Lemma StronglySorted_of_map {A B : Type} (R : B -> B -> Prop) (f : A -> B)
    (l : list A) :
  StronglySorted R (map f l) -> StronglySorted (fun a b => R (f a) (f b)) l.
Proof.
  induction l as [|x l IH]; simpl; intros H; [constructor|].
  apply StronglySorted_inv in H. destruct H as [Hs Hall].
  constructor; [now apply IH|].
  rewrite Forall_forall in *. intros y Hy. apply Hall. now apply in_map.
Qed.

Lemma StronglySorted_strict {A : Type} (R : A -> A -> Prop) (l : list A) :
  StronglySorted R l -> NoDup l ->
  StronglySorted (fun a b => R a b /\ a <> b) l.
Proof.
  induction 1 as [|x l Hs IH Hall]; intros Hnd; [constructor|].
  inversion Hnd as [|? ? Hnotin Hnd']; subst.
  constructor; [now apply IH|].
  rewrite Forall_forall in *. intros y Hy. split; [now apply Hall|].
  intros ->. contradiction.
Qed.

(** ** [unique] and [count] *)

Section UniqueFacts.
Context {A : Type} (eqb : A -> A -> bool).
Hypothesis eqb_eq : forall a b, eqb a b = true <-> a = b.
Implicit Types (l : list A).

Lemma eqb_refl x : eqb x x = true.
Proof. now apply eqb_eq. Qed.

Lemma unique_In l x : In x (unique eqb l) <-> In x l.
Proof.
  induction l as [|y l IH]; simpl; [tauto|].
  rewrite filter_In, IH, negb_true_iff.
  destruct (eqb y x) eqn:E; simpl.
  - apply eqb_eq in E. subst. split; intros; now left.
  - split.
    + intros [H|[H _]]; auto.
    + intros [H|H]; auto.
Qed.

Lemma unique_NoDup l : NoDup (unique eqb l).
Proof.
  induction l as [|y l IH]; simpl; constructor.
  - rewrite filter_In, eqb_refl. simpl. intros [_ H]. discriminate.
  - now apply NoDup_filter.
Qed.

Lemma unique_nil_iff l : unique eqb l = [] <-> l = [].
Proof. destruct l; simpl; split; congruence. Qed.

Lemma count_pos l x : In x l -> (1 <= count eqb x l)%nat.
Proof.
  intros H. unfold count.
  assert (Hin : In x (filter (eqb x) l)).
  { apply filter_In. split; [exact H | apply eqb_refl]. }
  destruct (filter (eqb x) l); [contradiction | simpl; lia].
Qed.

Lemma count_count_occ (dec : forall a b : A, {a = b} + {a <> b}) l x :
  count eqb x l = count_occ dec l x.
Proof.
  unfold count. induction l as [|y l IH]; simpl; [reflexivity|].
  destruct (dec y x) as [->|Hne].
  - rewrite eqb_refl. simpl. now rewrite IH.
  - destruct (eqb x y) eqn:E; [|exact IH].
    apply eqb_eq in E. congruence.
Qed.

Lemma filter_eqb_notin l x :
  ~ In x l -> filter (fun y => eqb y x) l = [].
Proof.
  induction l as [|y l IH]; simpl; intros H; [reflexivity|].
  destruct (eqb y x) eqn:E.
  - apply eqb_eq in E. subst. exfalso. apply H. now left.
  - apply IH. intros Hin. apply H. now right.
Qed.

(** Selecting one key among distinct keys. *)
Lemma filter_eqb_NoDup l x :
  NoDup l -> In x l -> filter (fun y => eqb y x) l = [x].
Proof.
  induction 1 as [|y l Hnotin Hnd IH]; simpl; [contradiction|].
  intros [->|Hin].
  - rewrite eqb_refl. f_equal. now apply filter_eqb_notin.
  - destruct (eqb y x) eqn:E; [|now apply IH].
    apply eqb_eq in E. subst. contradiction.
Qed.
End UniqueFacts.

(** ** [groupby] *)

Section GroupByFacts.
Context {R K : Type} (eqb leb : K -> K -> bool) `{!KeyOrder eqb leb}.
Context (key : R -> K) (value : R -> Q).
Implicit Types (df : list R).

#[local] Instance key_order_preorder : TotalPreorder leb := key_preorder.

Lemma groupby_mean_keys df :
  map fst (groupby_mean eqb leb key value df)
  = sort leb (unique eqb (map key df)).
Proof.
  unfold groupby_mean, groupby. rewrite !map_map. simpl. apply map_id.
Qed.


Lemma groupby_mean_NoDup df :
  NoDup (map fst (groupby_mean eqb leb key value df)).
Proof.
  rewrite groupby_mean_keys.
  eapply Permutation_NoDup; [symmetry; apply sort_perm|].
  apply unique_NoDup, key_eqb.
Qed.

Lemma groupby_mean_In df k m :
  In (k, m) (groupby_mean eqb leb key value df) <->
  In k (map key df) /\
  m = Qmean (map value (filter (fun r => eqb (key r) k) df)).
Proof.
  unfold groupby_mean, groupby. rewrite map_map. simpl.
  rewrite in_map_iff. split.
  - intros [k' [E Hin]]. inversion E; subst.
    apply sort_In, unique_In in Hin; [|apply key_eqb]. auto.
  - intros [Hin ->]. exists k. split; [reflexivity|].
    apply sort_In, unique_In; [apply key_eqb | exact Hin].
Qed.

(** The groups come out in strictly ascending key order. *)
Lemma groupby_mean_sorted df :
  StronglySorted (fun a b => leb (fst a) (fst b) = true /\ fst a <> fst b)
                 (groupby_mean eqb leb key value df).
Proof.
  apply (StronglySorted_of_map (fun a b => leb a b = true /\ a <> b) fst).
  apply StronglySorted_strict; [|apply groupby_mean_NoDup].
  rewrite groupby_mean_keys. apply sort_sorted. exact _.
Qed.

Lemma groupby_mean_spec df :
  group_means key value df (groupby_mean eqb leb key value df).
Proof.
  split; [apply groupby_mean_NoDup|].
  intros k m. rewrite groupby_mean_In. split.
  - intros [Hin ->]. split; [exact Hin|].
    exists (filter (fun r => eqb (key r) k) df). split; [|reflexivity].
    apply retains_filter. intros r. apply key_eqb.
  - intros [Hin (rows & Hr & ->)]. split; [exact Hin|].
    f_equal. f_equal. eapply retains_unique; [exact Hr|].
    apply retains_filter. intros r. apply key_eqb.
Qed.





End GroupByFacts.

(** ** The top-10 ranking (Home.py, 0_Main_Courts.py) *)






(** ** float64 on finite values *)

Lemma Qsign_Eq (q : Q) : Qsign q = Eq <-> q == 0.
Proof. unfold Qsign. symmetry. apply Qeq_alt. Qed.

Lemma fdiv_finite (a b : Q) : ~ b == 0 -> fdiv (Fin a) (Fin b) = Fin (a / b).
Proof.
  intros Hb. simpl. destruct (Qsign b) eqn:E; try reflexivity.
  apply Qsign_Eq in E. contradiction.
Qed.




(** ** The growth insight (Home.py) *)






Lemma StronglySorted_ext {A : Type} (R : A -> A -> Prop) (l1 l2 : list A) :
  (forall a b, R a b -> R b a -> False) ->
  StronglySorted R l1 -> StronglySorted R l2 ->
  (forall x, In x l1 <-> In x l2) -> l1 = l2.
Proof.
  intros Hasym H1. revert l2.
  induction H1 as [|x1 t1 Hs1 IH Hall1]; intros l2 H2 Hsame.
  - destruct l2 as [|x2 t2]; [reflexivity|].
    exfalso. apply (Hsame x2). now left.
  - destruct H2 as [|x2 t2 Hs2 Hall2].
    + exfalso. apply (Hsame x1). now left.
    + rewrite Forall_forall in Hall1, Hall2.
      assert (Hx : x1 = x2).
      { destruct (proj1 (Hsame x1) (or_introl eq_refl)) as [E|Hin2]; [now symmetry|].
        destruct (proj2 (Hsame x2) (or_introl eq_refl)) as [E|Hin1]; [exact E|].
        exfalso. exact (Hasym _ _ (Hall1 _ Hin1) (Hall2 _ Hin2)). }
      subst x2. f_equal. apply IH; [exact Hs2|].
      intros y. split; intros Hy.
      * destruct (proj1 (Hsame y) (or_intror Hy)) as [E|Hin]; [|exact Hin].
        subst y. exfalso. exact (Hasym _ _ (Hall1 _ Hy) (Hall1 _ Hy)).
      * destruct (proj2 (Hsame y) (or_intror Hy)) as [E|Hin]; [|exact Hin].
        subst y. exfalso. exact (Hasym _ _ (Hall2 _ Hy) (Hall2 _ Hy)).
Qed.





(** ** The percentile trimming (Home.py) *)

Lemma sort_Qle (xs : list Q) : StronglySorted Qle (sort Qle_bool xs).
Proof.
  eapply StronglySorted_weaken; [|apply sort_sorted; exact Q_preorder].
  intros a b. apply Qle_bool_iff.
Qed.

Lemma lerp_linear (a b t : Q) : lerp a b t == a + t * (b - a).
Proof. unfold lerp. destruct (Qle_bool (1 # 2) t); ring. Qed.

Lemma of_nat_pred (n : nat) : of_nat n - 1 == inject_Z (Z.of_nat n - 1).
Proof.
  unfold of_nat, Z.sub. rewrite inject_Z_plus, inject_Z_opp. reflexivity.
Qed.

Lemma of_nat_to_nat (z : Z) : (0 <= z)%Z -> of_nat (Z.to_nat z) = inject_Z z.
Proof. intros H. unfold of_nat. now rewrite Z2Nat.id. Qed.

Lemma virtual_index_range (p : Q) (n : nat) :
  (0 < n)%nat -> 0 <= p -> p <= 1 ->
  (0 <= Qfloor (p * (of_nat n - 1)) <= Z.of_nat n - 1)%Z.
Proof.
  intros Hn Hp0 Hp1.
  assert (Hc : 0 <= of_nat n - 1).
  { rewrite of_nat_pred. change 0 with (inject_Z 0). rewrite <- Zle_Qle. lia. }
  split.
  - change 0%Z with (Qfloor 0). apply Qfloor_resp_le.
    now apply Qmult_le_0_compat.
  - rewrite <- (Qfloor_Z (Z.of_nat n - 1)). apply Qfloor_resp_le.
    rewrite <- of_nat_pred.
    rewrite <- (Qmult_1_l (of_nat n - 1)) at 2.
    now apply Qmult_le_compat_r.
Qed.

Lemma nth_nth_error {A : Type} (l : list A) (i : nat) (d : A) :
  (i < length l)%nat -> nth_error l i = Some (nth i l d).
Proof. intros H. now apply nth_error_nth'. Qed.

(** [quantile] is the linear-interpolation percentile. *)
Lemma quantile_linear (p : Q) (xs : list Q) :
  xs <> [] -> 0 <= p -> p <= 1 ->
  exists v, quantile p xs = Fin v /\ linear_percentile p xs v.
Proof.
  intros Hne Hp0 Hp1. unfold quantile.
  pose proof (sort_perm Qle_bool xs) as Hperm.
  pose proof (sort_Qle xs) as Hsorted.
  pose proof (sort_length Qle_bool xs) as Hlen.
  destruct (sort Qle_bool xs) as [|x0 s'] eqn:Es.
  { exfalso. apply Hne. apply (sort_nil_iff Qle_bool). exact Es. }
  set (s := x0 :: s') in *. rewrite Hlen.
  set (n := length xs) in *.
  assert (Hn : (0 < n)%nat) by (rewrite <- Hlen; simpl; lia).
  set (h := p * (of_nat n - 1)).
  pose proof (virtual_index_range p n Hn Hp0 Hp1) as [Hlo Hhi]. fold h in Hlo, Hhi.
  set (i := Z.to_nat (Qfloor h)).
  assert (Hi : of_nat i = inject_Z (Qfloor h)) by now apply of_nat_to_nat.
  assert (Hin : (i < length s)%nat) by (rewrite Hlen; unfold i; lia).
  eexists. split; [reflexivity|].
  exists s, i, (nth i s x0),
    (nth (Z.to_nat (Z.min (Qfloor h + 1) (Z.of_nat n - 1))) s x0).
  split; [exact Hperm|]. split; [exact Hsorted|].
  split; [|split; [|split]].
  - rewrite Hi. split; [apply Qfloor_le|].
    change 1 with (inject_Z 1). rewrite <- inject_Z_plus. apply Qlt_floor.
  - now apply nth_nth_error.
  - destruct (Z.le_gt_cases (Qfloor h + 1) (Z.of_nat n - 1)) as [Hle|Hgt].
    + left. rewrite Z.min_l by exact Hle.
      replace (Z.to_nat (Qfloor h + 1)) with (S i) by (unfold i; lia).
      apply nth_nth_error. rewrite Hlen. unfold i. lia.
    + right. rewrite Z.min_r by lia.
      replace (Z.to_nat (Z.of_nat n - 1)) with i by (unfold i; lia).
      split; [unfold i; lia | reflexivity].
  - rewrite lerp_linear, Hi. reflexivity.
Qed.

(** C4.  For a percentile [p] in (0, 1] and a table with at least one row,
    the trimming computes the [p]-th percentile of the salaries by linear
    interpolation and keeps exactly the rows whose salary is at most that
    threshold, in table order, hence no more rows than the table has; the
    empty table is returned as it is.  The dashboard trims at 0.99. *)
Theorem trim_keeps_rows_up_to_percentile :
  forall (p : Q) (df : Table),
    0 < p <= 1 ->
    (df <> [] ->
     exists limit,
       quantile p (map Salary_In_Usd df) = Fin limit /\
       linear_percentile p (map Salary_In_Usd df) limit /\
       retains (fun r => Salary_In_Usd r <= limit) df (Home.outlier_removal p df) /\
       (forall r, In r (Home.outlier_removal p df) -> In r df) /\
       (length (Home.outlier_removal p df) <= length df)%nat)
    /\ Home.outlier_removal p [] = []
    /\ Home.df_vis df = Home.outlier_removal (99 # 100) df.
Proof.
  intros p df [Hp0 Hp1]. split; [|split; reflexivity].
  intros Hne.
  destruct (quantile_linear p (map Salary_In_Usd df)) as (limit & Hq & Hlin).
  - intros H. apply map_eq_nil in H. contradiction.
  - now apply Qlt_le_weak.
  - exact Hp1.
  - exists limit. split; [exact Hq|]. split; [exact Hlin|].
    assert (R : retains (fun r => Salary_In_Usd r <= limit) df
                        (Home.outlier_removal p df)).
    { unfold Home.outlier_removal.
      apply empty_false in Hne. rewrite Hne. cbn [negb]. rewrite Hq.
      apply retains_filter. intros r. apply Qle_bool_iff. }
    split; [exact R|]. split.
    + intros r Hr. now apply (retains_In _ _ _ R).
    + now apply (retains_length _ _ _ R).
Qed.

Lemma trim_keeps_rows_up_to_percentile_witness :
  0 < 99 # 100 <= 1 /\
  (exists limit,
      quantile (99 # 100) (map Salary_In_Usd with_outlier) = Fin limit /\
      retains (fun r => Salary_In_Usd r <= limit) with_outlier
              (Home.df_vis with_outlier)) /\
  length (Home.df_vis with_outlier) = 4%nat.
Proof.
  assert (Hp : 0 < 99 # 100 <= 1) by (split; [reflexivity | discriminate]).
  split; [exact Hp|]. split; [|reflexivity].
  destruct (trim_keeps_rows_up_to_percentile (99 # 100) with_outlier Hp)
    as (H & _ & _).
  destruct H as (limit & Hq & _ & R & _); [discriminate|].
  exists limit. split; [exact Hq | exact R].
Defined.

(** ** The KPI block (Home.py) *)

Lemma max_attained {A : Type} (f : A -> nat) (u : list A) :
  u <> [] ->
  (exists x, In x u /\ f x = fold_right Nat.max 0%nat (map f u)) /\
  (forall x, In x u -> (f x <= fold_right Nat.max 0%nat (map f u))%nat).
Proof.
  induction u as [|y u IH]; [congruence|]. intros _. simpl.
  destruct u as [|z u].
  - simpl. split.
    + exists y. split; [now left | lia].
    + intros x [<-|[]]. lia.
  - destruct IH as [(x & Hx & Hfx) Hle]; [discriminate|].
    set (m := fold_right Nat.max 0%nat (map f (z :: u))) in *.
    split.
    + destruct (Nat.max_spec_le (f y) m) as [[_ E]|[_ E]]; rewrite E.
      * exists x. split; [now right | exact Hfx].
      * exists y. split; [now left | reflexivity].
    + intros w [<-|Hw]; [lia|]. specialize (Hle w Hw). lia.
Qed.

Lemma string_leb_refl (a : string) : String.leb a a = true.
Proof. apply string_leb_iff. now left. Qed.

(** The first of the modes: a most frequent value, and the smallest of
    those. *)
Lemma mode_first (l : list string) :
  l <> [] ->
  exists t rest,
    mode l = t :: rest /\
    In t l /\
    (forall t', (count_occ string_dec l t' <= count_occ string_dec l t)%nat) /\
    (forall t', count_occ string_dec l t' = count_occ string_dec l t ->
                String.leb t t' = true).
Proof.
  intros Hne.
  pose (u := unique String.eqb l).
  pose (f := fun x => count String.eqb x l).
  pose (top := fold_right Nat.max 0%nat (map f u)).
  pose (F := filter (fun x => Nat.eqb (f x) top) u).
  change (mode l) with (sort String.leb F).
  assert (Hu : u <> []).
  { intros E. apply Hne. now apply (unique_nil_iff String.eqb). }
  destruct (max_attained f u Hu) as [(x & Hx & Hfx) Hle]. fold top in Hfx, Hle.
  assert (HF : forall y, In y F <-> In y l /\ f y = top).
  { intros y. unfold F. rewrite filter_In, Nat.eqb_eq.
    unfold u. now rewrite (unique_In String.eqb String.eqb_eq). }
  assert (Hf : forall y, f y = count_occ string_dec l y).
  { intros y. apply (count_count_occ String.eqb String.eqb_eq). }
  pose proof (sort_sorted String.leb F) as Hsorted.
  destruct (sort String.leb F) as [|t rest] eqn:Es.
  { exfalso. apply (proj1 (sort_nil_iff String.leb F)) in Es.
    assert (Hin : In x F).
    { apply HF. split; [|exact Hfx].
      now apply (unique_In String.eqb String.eqb_eq). }
    rewrite Es in Hin. contradiction. }
  assert (Ht : In t F).
  { apply (sort_In String.leb). rewrite Es. now left. }
  apply HF in Ht. destruct Ht as [Htl Htop].
  exists t, rest. split; [reflexivity|]. split; [exact Htl|].
  assert (Hall : forall t', (count_occ string_dec l t' <= top)%nat).
  { intros t'. destruct (in_dec string_dec t' l) as [Hin|Hnot].
    - rewrite <- Hf. apply Hle.
      now apply (unique_In String.eqb String.eqb_eq).
    - apply (count_occ_not_In string_dec) in Hnot. lia. }
  split.
  - intros t'. rewrite <- (Hf t), Htop. apply Hall.
  - intros t' Htie. rewrite <- (Hf t), Htop in Htie.
    assert (Hin' : In t' l).
    { apply (count_occ_In string_dec). rewrite Htie, <- Htop.
      apply (count_pos String.eqb String.eqb_eq), Htl. }
    assert (Hs : In t' (t :: rest)).
    { rewrite <- Es. apply (sort_In String.leb). apply HF.
      split; [exact Hin' | now rewrite Hf]. }
    destruct Hs as [<-|Hs]; [apply string_leb_refl|].
    apply StronglySorted_inv in Hsorted. destruct Hsorted as [_ Hhd].
    rewrite Forall_forall in Hhd. now apply Hhd.
Qed.

Lemma kpis_total (df : Table) : exists k, Home.kpis df = Ok k.
Proof.
  unfold Home.kpis. destruct df as [|r df]; [eexists; reflexivity|].
  cbn [empty].
  destruct (mode_first (map Job_Title (r :: df))) as (t & rest & Hm & _);
    [discriminate|].
  rewrite Hm. eexists. reflexivity.
Qed.

(** C10.  On a table with at least one row the most-frequent-title KPI is
    a title of the table that no title outnumbers, and among the titles as
    frequent as it is the lexicographically smallest. *)
Theorem most_frequent_title_is_smallest_mode :
  forall df : Table,
    df <> [] ->
    exists k,
      Home.kpis df = Ok k /\
      let titles := map Job_Title df in
      let t := Home.most_frequent_job_title k in
      In t titles /\
      (forall t', (count_occ string_dec titles t'
                   <= count_occ string_dec titles t)%nat) /\
      (forall t', count_occ string_dec titles t' = count_occ string_dec titles t ->
                  String.leb t t' = true).
Proof.
  intros df Hne.
  destruct (mode_first (map Job_Title df)) as (t & rest & Hm & Hin & Hmax & Hmin).
  { intros E. apply map_eq_nil in E. contradiction. }
  unfold Home.kpis. apply empty_false in Hne. rewrite Hne, Hm.
  eexists. split; [reflexivity|]. cbn. auto.
Qed.

Lemma most_frequent_title_is_smallest_mode_witness :
  tied_titles <> [] /\
  exists k,
    Home.kpis tied_titles = Ok k /\
    Home.most_frequent_job_title k = "Data Analyst" /\
    String.leb (Home.most_frequent_job_title k) "Data Scientist" = true.
Proof.
  assert (Hne : tied_titles <> []) by discriminate.
  split; [exact Hne|].
  destruct (most_frequent_title_is_smallest_mode tied_titles Hne)
    as (k & Hk & _ & _ & Hmin).
  exists k. split; [exact Hk|]. split.
  - vm_compute in Hk. injection Hk as <-. reflexivity.
  - apply Hmin. vm_compute in Hk. injection Hk as <-. reflexivity.
Defined.

(** C7.  On the empty table the KPI block yields count 0, zero mean, median
    and maximum and "-" for the most frequent title, and on no table does
    it raise; every other aggregation of the page yields its empty result
    on the empty table, the page renders with the "no data" warning, and
    the Portuguese dashboard stops on its warning before any figure. *)
Theorem empty_table_is_handled :
  Home.kpis [] =
    Ok {| Home.average_salary := Fin 0; Home.median_salary := Fin 0;
          Home.maximum_salary := Fin 0; Home.total_records := 0;
          Home.most_frequent_job_title := "-" |}
  /\ (forall df, exists k, Home.kpis df = Ok k)
  /\ Home.growth [] = None
  /\ Home.trend [] = None
  /\ Home.df_vis [] = []
  /\ Home.top_job_titles [] = None
  /\ Home.remote_ratio [] = None
  /\ Home.average_country_salary [] = None
  /\ (forall a b, Home.comparison [] a b = None)
  /\ (forall table years levels types sizes a b,
         Home.filter_data table years levels types sizes = [] ->
         exists v,
           Home.render table years levels types sizes a b = Ok v /\
           Home.view_warning v =
             Some (st_warning "No data found with the selected filters.") /\
           Home.total_records (Home.view_kpis v) = 0%nat /\
           Home.most_frequent_job_title (Home.view_kpis v) = "-")
  /\ (forall table m anos senioridades contratos tamanhos c1 c2,
         Main_Courts.filtrar table anos senioridades contratos tamanhos = [] ->
         Main_Courts.render table m anos senioridades contratos tamanhos c1 c2
         = Stopped (st_warning "Nenhum dado com os filtros selecionados.")).
Proof.
  repeat (split; [reflexivity|]).
  split; [apply kpis_total|].
  repeat (split; [reflexivity|]).
  split.
  - intros table years levels types sizes a b E.
    unfold Home.render. rewrite E. eexists. split; [reflexivity|].
    repeat split.
  - intros table m anos senioridades contratos tamanhos c1 c2 E.
    unfold Main_Courts.render. now rewrite E.
Qed.

(** C5.  The KPIs the page shows are those of the filtered table as it
    stands before the percentile trimming: mean, median, maximum, count and
    most frequent title are read from it, and the trimmed table feeds the
    charts only.  The two differ: with an outlier in the table the KPIs of
    the trimmed table are not those of the table. *)
Theorem kpis_read_untrimmed_table :
  (forall (table : Table) (years : list Z)
          (levels types sizes : list string) (a b : string),
      let df_filtered := Home.filter_data table years levels types sizes in
      exists v,
        Home.render table years levels types sizes a b = Ok v /\
        Home.kpis df_filtered = Ok (Home.view_kpis v) /\
        (df_filtered <> [] ->
         Home.average_salary (Home.view_kpis v)
           = mean (map Salary_In_Usd df_filtered) /\
         Home.median_salary (Home.view_kpis v)
           = median (map Salary_In_Usd df_filtered) /\
         Home.maximum_salary (Home.view_kpis v)
           = max (map Salary_In_Usd df_filtered) /\
         Home.total_records (Home.view_kpis v) = length df_filtered /\
         iloc0 (mode (map Job_Title df_filtered))
           = Ok (Home.most_frequent_job_title (Home.view_kpis v))) /\
        Home.view_histogram v = Home.df_vis df_filtered /\
        Home.view_table v = df_filtered)
  /\ Home.kpis (Home.df_vis with_outlier) <> Home.kpis with_outlier.
Proof.
  split.
  - intros table years levels types sizes a b df_filtered.
    unfold Home.render. fold df_filtered.
    destruct (kpis_total df_filtered) as [k Hk]. rewrite Hk.
    eexists. split; [reflexivity|]. cbn [bind Home.view_kpis
      Home.view_histogram Home.view_table].
    split; [reflexivity|]. split; [|split; reflexivity].
    intros Hne. unfold Home.kpis in Hk.
    apply empty_false in Hne. rewrite Hne in Hk.
    destruct (iloc0 (mode (map Job_Title df_filtered))) as [t|e];
      [|discriminate].
    injection Hk as <-. cbn. repeat split.
  - vm_compute. discriminate.
Qed.

(** ** The comparison of two roles (3_Role_Comparison.py, 0_Main_Courts.py) *)

Section AggFacts.
Context {R : Type} (key : R -> string) (value : R -> Q).
Implicit Types (df : list R).

Lemma groupby_agg_rows df :
  groupby_agg String.eqb String.leb key value df
  = map (agg_row key value df) (sort String.leb (unique String.eqb (map key df))).
Proof. unfold groupby_agg, groupby. now rewrite map_map. Qed.

Lemma group_values_nonempty df k :
  In k (map key df) -> group_values key value df k <> [].
Proof.
  intros Hin E. apply map_eq_nil in E.
  apply in_map_iff in Hin. destruct Hin as [r [<- Hr]].
  assert (H : In r (filter (fun r0 => String.eqb (key r0) (key r)) df)).
  { apply filter_In. split; [exact Hr | apply String.eqb_refl]. }
  rewrite E in H. contradiction.
Qed.

Lemma mean_group_values df k :
  In k (map key df) ->
  mean (group_values key value df k) = Fin (Qmean (group_values key value df k)).
Proof.
  intros Hin. pose proof (group_values_nonempty df k Hin) as Hne.
  destruct (group_values key value df k); [congruence | reflexivity].
Qed.

(** Keeping the rows of two groups leaves each of the two as it was. *)
Lemma group_values_selected df (a b k : string) :
  k = a \/ k = b ->
  group_values key value (filter (fun r => isin String.eqb (key r) [a; b]) df) k
  = group_values key value df k.
Proof.
  intros Hk. unfold group_values. rewrite filter_filter. f_equal.
  apply filter_ext. intros r. unfold isin. simpl.
  destruct (String.eqb_spec (key r) k) as [E|E]; [|apply andb_false_r].
  rewrite andb_true_r.
  destruct Hk as [-> | ->]; rewrite E, String.eqb_refl;
    [reflexivity | apply orb_true_r].
Qed.

Lemma selected_keys df (a b k : string) :
  In a (map key df) -> In b (map key df) ->
  In k (map key (filter (fun r => isin String.eqb (key r) [a; b]) df))
  <-> k = a \/ k = b.
Proof.
  intros Ha Hb. rewrite in_map_iff. split.
  - intros [r [<- Hr]]. apply filter_In in Hr. destruct Hr as [_ Hr].
    apply (isin_In String.eqb _ _ String.eqb_eq) in Hr.
    simpl in Hr. intuition.
  - assert (Hsel : forall c, In c (map key df) -> c = a \/ c = b ->
                exists r, key r = c /\
                  In r (filter (fun r => isin String.eqb (key r) [a; b]) df)).
    { intros c Hc Hab. apply in_map_iff in Hc. destruct Hc as [r [<- Hr]].
      exists r. split; [reflexivity|]. apply filter_In. split; [exact Hr|].
      apply (isin_In String.eqb _ _ String.eqb_eq). simpl. intuition. }
    intros [-> | ->]; apply Hsel; auto.
Qed.

(** Looking one role up in the aggregated frame. *)
Lemma groupby_agg_lookup df k :
  In k (map key df) ->
  filter (fun g => String.eqb (fst g) k)
         (groupby_agg String.eqb String.leb key value df)
  = [agg_row key value df k].
Proof.
  intros Hin. rewrite groupby_agg_rows.
  set (keys := sort String.leb (unique String.eqb (map key df))).
  assert (Hnd : NoDup keys).
  { eapply Permutation_NoDup; [symmetry; apply sort_perm|].
    apply unique_NoDup, String.eqb_eq. }
  assert (Hk : In k keys).
  { apply sort_In. now apply (unique_In String.eqb String.eqb_eq). }
  change [agg_row key value df k] with (map (agg_row key value df) [k]).
  rewrite <- (filter_eqb_NoDup String.eqb String.eqb_eq keys k Hnd Hk).
  clear. induction keys as [|y keys IH]; simpl; [reflexivity|].
  destruct (String.eqb y k); simpl; now rewrite IH.
Qed.

(** With two roles selected, the aggregated frame has their two rows, the
    smaller name first. *)
Lemma groupby_agg_pair df (a b : string) :
  String.ltb a b = true ->
  In a (map key df) -> In b (map key df) ->
  groupby_agg String.eqb String.leb key value
              (filter (fun r => isin String.eqb (key r) [a; b]) df)
  = [agg_row key value df a; agg_row key value df b].
Proof.
  intros Hlt Ha Hb. rewrite groupby_agg_rows.
  set (sel := filter (fun r => isin String.eqb (key r) [a; b]) df).
  assert (Hkeys : sort String.leb (unique String.eqb (map key sel)) = [a; b]).
  { apply string_ltb_iff in Hlt.
    apply (StronglySorted_ext (fun x y => String.leb x y = true /\ x <> y)).
    - intros x y [Hxy Hne] [Hyx _]. apply Hne. now apply String.leb_antisym.
    - apply StronglySorted_strict; [apply sort_sorted; exact _|].
      eapply Permutation_NoDup; [symmetry; apply sort_perm|].
      apply unique_NoDup, String.eqb_eq.
    - repeat constructor; tauto.
    - intros k.
      rewrite sort_In, (unique_In String.eqb String.eqb_eq).
      unfold sel. rewrite (selected_keys df a b k Ha Hb).
      simpl. intuition. }
  rewrite Hkeys. simpl. unfold agg_row, sel.
  rewrite !group_values_selected by auto. reflexivity.
Qed.
End AggFacts.



Lemma mean_of_role (rows : list (string * Q)) (role_a role_b k : string) :
  In role_a (map fst rows) -> In role_b (map fst rows) ->
  k = role_a \/ k = role_b ->
  Role_Comparison.mean_of (Role_Comparison.comparison rows role_a role_b) k
  = Ok (Fin (Qmean (group_values fst snd rows k))).
Proof.
  intros Ha Hb Hk. unfold Role_Comparison.mean_of, Role_Comparison.comparison.
  rewrite groupby_agg_lookup
    by (apply (proj2 (selected_keys fst snd rows role_a role_b k Ha Hb)); exact Hk).
  cbn [map iloc0 agg_row fst snd].
  rewrite group_values_selected by exact Hk.
  rewrite mean_group_values; [reflexivity|].
  destruct Hk as [-> | ->]; assumption.
Qed.





(** ** Schema validation (all pages) *)

Lemma issubset_false (required cols : list string) :
  issubset required cols = false <->
  exists c, In c required /\ ~ In c cols.
Proof.
  unfold issubset. split.
  - intros H. induction required as [|c required IH]; simpl in H; [discriminate|].
    destruct (isin String.eqb c cols) eqn:E.
    + destruct (IH H) as (c' & Hin & Hnot). exists c'. split; [now right | exact Hnot].
    + exists c. split; [now left|].
      intros Hin. apply (isin_In String.eqb _ _ String.eqb_eq) in Hin. congruence.
  - intros (c & Hin & Hnot).
    destruct (forallb (fun c0 => isin String.eqb c0 cols) required) eqn:E;
      [|reflexivity].
    rewrite forallb_forall in E. specialize (E c Hin).
    apply (isin_In String.eqb _ _ String.eqb_eq) in E. contradiction.
Qed.

(** C8, on the code.  The two dashboards stop with their validation error
    on any data set that lacks one of their required columns, before the
    table is read.  The pages Overview, Work Mode and Role Comparison have
    no such step: on a data set with three of the eight columns each of
    them renders its figures. *)
Theorem validation_on_two_pages_only :
  (forall df years levels types sizes a b,
      (exists c, In c Home.REQUIRED_COLUMNS /\ ~ In c (columns df)) ->
      Home.page df years levels types sizes a b
      = Stopped (st_error "The dataset does not contain all the necessary columns."))
  /\ (forall df m anos senioridades contratos tamanhos c1 c2,
         (exists c, In c Main_Courts.COLUNAS /\ ~ In c (columns df)) ->
         Main_Courts.page df m anos senioridades contratos tamanhos c1 c2
         = Stopped (st_error "Dataset inválido ou incompleto."))
  /\ (exists c, In c Main_Courts.COLUNAS /\ ~ In c (columns three_columns))
  /\ (exists v, Overview.page three_columns = Rendered v /\
                Overview.view_total v = 2%nat)
  /\ (exists v, Work_Mode.page three_columns = Rendered v)
  /\ (exists v, Role_Comparison.page three_columns "Data Analyst" "Data Engineer"
                = Rendered v).
Proof.
  split; [|split; [|split; [|split; [|split]]]].
  - intros df years levels types sizes a b H.
    apply issubset_false in H. unfold Home.page. now rewrite H.
  - intros df m anos senioridades contratos tamanhos c1 c2 H.
    apply issubset_false in H. unfold Main_Courts.page. now rewrite H.
  - exists "ano". split; [now left|]. simpl. intuition discriminate.
  - eexists. split; vm_compute; reflexivity.
  - eexists. vm_compute. reflexivity.
  - eexists. vm_compute. reflexivity.
Qed.

(** * Further properties of the pages *)

(** ** The sidebar and the filter *)

Lemma filter_all {A : Type} (f : A -> bool) (l : list A) :
  (forall x, In x l -> f x = true) -> filter f l = l.
Proof.
  induction l as [|x l IH]; simpl; intros H; [reflexivity|].
  rewrite (H x) by now left. f_equal. apply IH. intros y Hy. apply H. now right.
Qed.

Lemma isin_sorted_unique {A : Type} (eqb leb : A -> A -> bool) (f : Row -> A)
    (df : Table) (r : Row) :
  (forall a b, eqb a b = true <-> a = b) ->
  In r df ->
  isin eqb (f r) (sort leb (unique eqb (map f df))) = true /\
  isin eqb (f r) (unique eqb (map f df)) = true.
Proof.
  intros Heq Hr.
  assert (Hin : In (f r) (unique eqb (map f df))).
  { apply (unique_In eqb Heq). now apply in_map. }
  split; apply (isin_In eqb _ _ Heq); [now apply sort_In | exact Hin].
Qed.

(** X1.  As long as no filter is touched, each multiselect holds every value
    of its column, and the filter of either dashboard returns the whole data
    set, row for row. *)
Theorem default_selection_keeps_every_row :
  forall df : Table,
    Home_Sidebar.df_filtered df = df /\ Main_Courts_Charts.df_f df = df.
Proof.
  intros df. split.
  - unfold Home_Sidebar.df_filtered, Home.filter_data.
    apply filter_all. intros r Hr. rewrite !andb_true_iff.
    repeat split.
    + apply (isin_sorted_unique Z.eqb Z.leb Year df r Z.eqb_eq Hr).
    + apply (isin_sorted_unique String.eqb String.leb Experience_Level df r
                                String.eqb_eq Hr).
    + apply (isin_sorted_unique String.eqb String.leb Employment_Type df r
                                String.eqb_eq Hr).
    + apply (isin_sorted_unique String.eqb String.leb Company_Size df r
                                String.eqb_eq Hr).
  - unfold Main_Courts_Charts.df_f, Main_Courts.filtrar.
    apply filter_all. intros r Hr. rewrite !andb_true_iff.
    repeat split.
    + apply (isin_sorted_unique Z.eqb Z.leb Main_Courts.ano df r Z.eqb_eq Hr).
    + apply (isin_sorted_unique String.eqb String.leb Main_Courts.senioridade
                                df r String.eqb_eq Hr).
    + apply (isin_sorted_unique String.eqb String.leb Main_Courts.contrato
                                df r String.eqb_eq Hr).
    + apply (isin_sorted_unique String.eqb String.leb Main_Courts.tamanho_empresa
                                df r String.eqb_eq Hr).
Qed.

(** X2.  Filtering a filtered table keeps exactly the rows of the data set
    that pass both selections, in table order, so that the order in which
    two selections are applied does not matter. *)
Theorem filters_compose :
  forall (df : Table) (y1 y2 : list Z) (l1 t1 s1 l2 t2 s2 : list string),
    let twice := Home.filter_data (Home.filter_data df y1 l1 t1 s1) y2 l2 t2 s2 in
    retains (fun r => accepted y1 l1 t1 s1 r /\ accepted y2 l2 t2 s2 r) df twice
    /\ twice = Home.filter_data (Home.filter_data df y2 l2 t2 s2) y1 l1 t1 s1.
Proof.
  intros df y1 y2 l1 t1 s1 l2 t2 s2 twice. unfold twice, Home.filter_data.
  rewrite !filter_filter. split.
  - apply retains_filter. intros r.
    rewrite andb_true_iff, !accepted_iff. tauto.
  - apply filter_ext. intros r. apply andb_comm.
Qed.

(** ** [value_counts] (Home.py, 2_Work_Mode.py) *)

Lemma list_sum_perm (l l' : list nat) :
  Permutation l l' -> list_sum l = list_sum l'.
Proof. induction 1; simpl; lia. Qed.

Lemma list_sum_partition {A : Type} (p : A -> bool) (g : A -> nat) (u : list A) :
  list_sum (map g u)
  = (list_sum (map g (filter p u))
     + list_sum (map g (filter (fun y => negb (p y)) u)))%nat.
Proof.
  induction u as [|y u IH]; simpl; [reflexivity|].
  destruct (p y); simpl; lia.
Qed.

Section CountFacts.
Context {A : Type} (eqb : A -> A -> bool).
Hypothesis eqb_reflexive : forall a, eqb a a = true.
Hypothesis eqb_symmetric : forall a b, eqb a b = eqb b a.
Hypothesis eqb_transitive :
  forall a b c, eqb a b = true -> eqb b c = true -> eqb a c = true.
Implicit Types (l t : list A).

Lemma eqb_class x y z : eqb x y = true -> eqb x z = eqb y z.
Proof.
  intros Hxy. destruct (eqb y z) eqn:E.
  - eapply eqb_transitive; eassumption.
  - destruct (eqb x z) eqn:E'; [|reflexivity].
    rewrite eqb_symmetric in Hxy.
    rewrite (eqb_transitive _ _ _ Hxy E') in E. discriminate.
Qed.

Lemma count_class x y l : eqb x y = true -> count eqb x l = count eqb y l.
Proof.
  intros Hxy. unfold count. f_equal. apply filter_ext.
  intros z. now apply eqb_class.
Qed.

Lemma count_cons x y l :
  count eqb x (y :: l) = ((if eqb x y then 1 else 0) + count eqb x l)%nat.
Proof. unfold count. simpl. destruct (eqb x y); reflexivity. Qed.

Lemma count_none x l : existsb (eqb x) l = false -> count eqb x l = 0%nat.
Proof.
  induction l as [|y l IH]; [reflexivity|]. simpl. rewrite count_cons.
  destruct (eqb x y); simpl; [discriminate | exact IH].
Qed.

Lemma unique_incl l y : In y (unique eqb l) -> In y l.
Proof.
  revert y. induction l as [|a l IH]; simpl; intros y; [tauto|].
  rewrite filter_In. intros [->|[H _]]; auto.
Qed.

Lemma unique_cover l x :
  In x l -> exists y, In y (unique eqb l) /\ eqb y x = true.
Proof.
  induction l as [|a l IH]; simpl; [tauto|].
  intros [->|Hx].
  - exists x. split; [now left | apply eqb_reflexive].
  - destruct (IH Hx) as (y & Hy & Hyx).
    destruct (eqb a y) eqn:E.
    + exists a. split; [now left | eapply eqb_transitive; eassumption].
    + exists y. split; [|exact Hyx]. right. apply filter_In. now rewrite E.
Qed.

(** The entries of [unique] in the class of [x] weigh what [x] weighs. *)
Lemma class_weight t x (g : A -> nat) :
  (forall y, eqb x y = true -> g y = g x) ->
  list_sum (map g (filter (eqb x) (unique eqb t)))
  = if existsb (eqb x) t then g x else 0%nat.
Proof.
  intros Hg. induction t as [|a t IH]; [reflexivity|].
  cbn [unique filter existsb].
  destruct (eqb x a) eqn:E; cbn [orb].
  - rewrite filter_filter.
    rewrite (filter_ext _ (fun _ => false)), filter_false.
    + simpl. rewrite (Hg a E). lia.
    + intros y. destruct (eqb x y) eqn:Ey; [|apply andb_false_r].
      rewrite andb_true_r. apply negb_false_iff.
      rewrite eqb_symmetric in E. eapply eqb_transitive; eassumption.
  - rewrite filter_filter, <- IH. f_equal. f_equal. apply filter_ext.
    intros y. destruct (eqb x y) eqn:Ey; [|apply andb_false_r].
    rewrite andb_true_r. apply negb_true_iff.
    destruct (eqb a y) eqn:Ea; [|reflexivity].
    rewrite (eqb_symmetric a y) in Ea.
    rewrite (eqb_transitive _ _ _ Ey Ea) in E. discriminate.
Qed.

(** Every element of the list is counted once. *)
Lemma unique_counts_add_up l :
  list_sum (map (fun y => count eqb y l) (unique eqb l)) = length l.
Proof.
  induction l as [|x t IH]; [reflexivity|].
  cbn [unique map list_sum length].
  rewrite count_cons, eqb_reflexive.
  assert (Hrest : map (fun y => count eqb y (x :: t))
                      (filter (fun y => negb (eqb x y)) (unique eqb t))
                  = map (fun y => count eqb y t)
                        (filter (fun y => negb (eqb x y)) (unique eqb t))).
  { apply map_ext_in. intros y Hy. apply filter_In in Hy.
    destruct Hy as [_ Hy]. apply negb_true_iff in Hy.
    rewrite count_cons, eqb_symmetric, Hy. reflexivity. }
  rewrite Hrest, <- IH.
  rewrite (list_sum_partition (eqb x) (fun y => count eqb y t) (unique eqb t)).
  rewrite class_weight.
  - unfold list_sum. cbn [fold_right].
    destruct (existsb (eqb x) t) eqn:E; [lia|].
    rewrite (count_none x t E). lia.
  - intros y Hy. symmetry. now apply count_class.
Qed.

Lemma value_counts_tallies l : tallies eqb l (value_counts eqb l).
Proof.
  unfold value_counts.
  set (desc := fun a b : A * nat => Nat.leb (snd b) (snd a)).
  set (rows := map (fun x => (x, count eqb x l)) (unique eqb l)).
  assert (Hin : forall e, In e (sort desc rows) <-> In e rows)
    by (intros e; apply sort_In).
  split; [|split; [|split]].
  - intros y c Hyc. apply Hin in Hyc. unfold rows in Hyc.
    apply in_map_iff in Hyc. destruct Hyc as (z & E & Hz).
    inversion E; subst. split; [now apply unique_incl | reflexivity].
  - intros x Hx. destruct (unique_cover l x Hx) as (y & Hy & Hyx).
    exists y. split; [|exact Hyx]. apply Hin. unfold rows.
    apply in_map_iff. exists y. split; [|exact Hy].
    f_equal. now apply count_class.
  - rewrite (list_sum_perm _ (map snd rows))
      by (apply Permutation_map, sort_perm).
    unfold rows. rewrite map_map. simpl. apply unique_counts_add_up.
  - eapply StronglySorted_weaken; [|apply sort_sorted].
    + intros a b H. unfold desc in H. now apply Nat.leb_le.
    + split; unfold desc.
      * intros a b. rewrite !Nat.leb_le. lia.
      * intros a b c. rewrite !Nat.leb_le. lia.
Qed.
End CountFacts.

Lemma cell_eqb_refl (a : cell) : cell_eqb a a = true.
Proof.
  destruct a; simpl;
    [apply Z.eqb_refl | apply Qeq_bool_refl | apply String.eqb_refl].
Qed.

Lemma cell_eqb_sym (a b : cell) : cell_eqb a b = cell_eqb b a.
Proof.
  destruct a, b; simpl; try reflexivity;
    [apply Z.eqb_sym | apply Qeq_bool_comm | apply String.eqb_sym].
Qed.

Lemma cell_eqb_trans (a b c : cell) :
  cell_eqb a b = true -> cell_eqb b c = true -> cell_eqb a c = true.
Proof.
  destruct a, b, c; simpl; try discriminate.
  - rewrite !Z.eqb_eq. congruence.
  - apply Qeq_bool_trans.
  - rewrite !String.eqb_eq. congruence.
Qed.

(** X3.  The work-mode pie of either dashboard is drawn from a tally of the
    column: each slice is a value of the column with the number of rows
    that hold it, every row falls in one slice, the slices add up to the
    number of rows, and they come largest first. *)
Theorem work_mode_counts_every_row :
  forall df_vis : Table,
    df_vis <> [] ->
    (exists vc, Home.remote_ratio df_vis = Some vc /\
                tallies cell_eqb (map Remote_Ratio df_vis) vc)
    /\ (forall (df : DataFrame) (remoto : list cell),
           column df "remoto" = Ok remoto ->
           exists vc, Work_Mode.page df = Rendered vc /\
                      tallies cell_eqb remoto vc).
Proof.
  intros df_vis Hne. split.
  - unfold Home.remote_ratio. apply empty_false in Hne. rewrite Hne.
    eexists. split; [reflexivity|].
    apply value_counts_tallies;
      [apply cell_eqb_refl | apply cell_eqb_sym | apply cell_eqb_trans].
  - intros df remoto Hcol. unfold Work_Mode.page. rewrite Hcol.
    eexists. split; [reflexivity|].
    apply value_counts_tallies;
      [apply cell_eqb_refl | apply cell_eqb_sym | apply cell_eqb_trans].
Qed.

Lemma work_mode_counts_every_row_witness :
  with_outlier <> [] /\
  exists vc, Home.remote_ratio with_outlier = Some vc /\
             list_sum (map snd vc) = 5%nat.
Proof.
  assert (Hne : with_outlier <> []) by discriminate.
  split; [exact Hne|].
  destruct (work_mode_counts_every_row with_outlier Hne) as [(vc & Hvc & Ht) _].
  exists vc. split; [exact Hvc|].
  destruct Ht as (_ & _ & Hsum & _). exact Hsum.
Defined.

(** ** Bounds on the KPIs and on the trimming threshold (Home.py) *)

Lemma max_spec (xs : list Q) :
  xs <> [] ->
  exists m, max xs = Fin m /\ In m xs /\ forall x, In x xs -> x <= m.
Proof.
  destruct xs as [|x t]; [congruence|]. intros _.
  eexists. split; [reflexivity|].
  induction t as [|a t IH]; cbn [fold_right].
  - split; [now left|]. intros y [<-|[]]. apply Qle_refl.
  - destruct IH as [Hin Hle].
    set (m := fold_right (fun y m => if Qle_bool m y then y else m) x t) in *.
    destruct (Qle_bool m a) eqn:E.
    + apply Qle_bool_iff in E. split; [right; now left|].
      intros y [<-|[<-|Hy]].
      * eapply Qle_trans; [apply Hle; now left | exact E].
      * apply Qle_refl.
      * eapply Qle_trans; [apply Hle; now right | exact E].
    + assert (Ham : a <= m).
      { destruct (Qlt_le_dec m a) as [H|H]; [|exact H].
        apply Qlt_le_weak, Qle_bool_iff in H. congruence. }
      split.
      * destruct Hin as [Hin|Hin]; [now left | right; now right].
      * intros y [<-|[<-|Hy]]; [apply Hle; now left | exact Ham |
                                apply Hle; now right].
Qed.

Lemma sorted_nth_error (s : list Q) (i j : nat) (a b : Q) :
  StronglySorted Qle s -> (i <= j)%nat ->
  nth_error s i = Some a -> nth_error s j = Some b -> a <= b.
Proof.
  intros Hs. revert i j. induction Hs as [|x s Hs IH Hall]; intros i j Hij Hi Hj.
  - destruct i; discriminate.
  - destruct i as [|i], j as [|j]; simpl in *; try lia.
    + injection Hi as <-. injection Hj as <-. apply Qle_refl.
    + injection Hi as <-. rewrite Forall_forall in Hall.
      apply Hall. eapply nth_error_In. exact Hj.
    + eapply (IH i j); [lia | exact Hi | exact Hj].
Qed.

(** A linear-interpolation percentile lies between two of the values. *)
Lemma linear_percentile_between (p : Q) (xs : list Q) (v : Q) :
  linear_percentile p xs v ->
  exists lo hi, In lo xs /\ In hi xs /\ lo <= v /\ v <= hi.
Proof.
  intros (s & i & lo & hi & Hperm & Hsorted & [Hi1 Hi2] & Hlo & Hhi & Hv).
  set (h := p * (of_nat (length xs) - 1)) in *.
  assert (Hlohi : lo <= hi).
  { destruct Hhi as [Hhi|[_ ->]]; [|apply Qle_refl].
    eapply (sorted_nth_error s i (S i)); eauto. }
  assert (Hin_lo : In lo xs).
  { eapply Permutation_in; [exact Hperm|]. eapply nth_error_In. exact Hlo. }
  assert (Hin_hi : In hi xs).
  { destruct Hhi as [Hhi|[_ ->]]; [|exact Hin_lo].
    eapply Permutation_in; [exact Hperm|]. eapply nth_error_In. exact Hhi. }
  exists lo, hi. split; [exact Hin_lo|]. split; [exact Hin_hi|].
  assert (Hg0 : 0 <= h - of_nat i) by (apply (proj1 (Qle_minus_iff _ _)); exact Hi1).
  assert (Hg1 : h - of_nat i <= 1).
  { apply Qlt_le_weak. apply (Qplus_lt_l _ _ (of_nat i)).
    assert (E1 : h - of_nat i + of_nat i == h) by ring.
    assert (E2 : 1 + of_nat i == of_nat i + 1) by ring.
    rewrite E1, E2. exact Hi2. }
  assert (Hd : 0 <= hi - lo) by (apply (proj1 (Qle_minus_iff _ _)); exact Hlohi).
  rewrite Hv. split.
  - rewrite <- (Qplus_0_r lo) at 1. apply Qplus_le_compat; [apply Qle_refl|].
    now apply Qmult_le_0_compat.
  - assert (E : hi == lo + 1 * (hi - lo)) by ring.
    rewrite E at 2. apply Qplus_le_compat; [apply Qle_refl|].
    now apply Qmult_le_compat_r.
Qed.

Lemma median_between (xs : list Q) :
  xs <> [] ->
  exists md lo hi, median xs = Fin md /\ In lo xs /\ In hi xs /\
                   lo <= md /\ md <= hi.
Proof.
  intros Hne.
  destruct (quantile_linear (1 # 2) xs Hne) as (v & Hq & Hlin);
    [discriminate | discriminate |].
  destruct (linear_percentile_between _ _ _ Hlin) as (lo & hi & H).
  exists v, lo, hi. split; [exact Hq | exact H].
Qed.

Lemma in_salaries (df : Table) (x : Q) :
  In x (map Salary_In_Usd df) -> exists r, In r df /\ Salary_In_Usd r = x.
Proof.
  intros H. apply in_map_iff in H. destruct H as (r & E & Hr). now exists r.
Qed.

(** X4.  On a table with at least one row the KPI block of Home.py is
    computed without an exception; the maximum it shows is the salary of
    some row and no row earns more; the count is the number of rows. *)
Theorem kpis_maximum_and_count :
  forall df : Table,
    df <> [] ->
    exists k mx,
      Home.kpis df = Ok k /\
      Home.maximum_salary k = Fin mx /\
      Home.total_records k = length df /\
      (exists r, In r df /\ Salary_In_Usd r = mx) /\
      (forall r, In r df -> Salary_In_Usd r <= mx).
Proof.
  intros df Hne.
  set (xs := map Salary_In_Usd df).
  assert (Hxs : xs <> []).
  { intros E. apply map_eq_nil in E. contradiction. }
  destruct (max_spec xs Hxs) as (mx & Hmax & Hmx_in & Hmx).
  destruct (mode_first (map Job_Title df)) as (t & rest & Hmode & _).
  { intros E. apply map_eq_nil in E. contradiction. }
  eexists. exists mx. split.
  - unfold Home.kpis. apply empty_false in Hne. rewrite Hne, Hmode. reflexivity.
  - cbn [Home.maximum_salary Home.total_records]. fold xs.
    split; [exact Hmax|]. split; [reflexivity|].
    split; [now apply in_salaries|].
    intros r Hr; apply Hmx; now apply in_map.
Qed.

Lemma kpis_maximum_and_count_witness :
  with_outlier <> [] /\
  exists k mx, Home.kpis with_outlier = Ok k /\
               Home.maximum_salary k = Fin mx /\
               Home.total_records k = 5%nat /\
               forall r, In r with_outlier -> Salary_In_Usd r <= mx.
Proof.
  assert (Hne : with_outlier <> []) by discriminate.
  split; [exact Hne|].
  destruct (kpis_maximum_and_count with_outlier Hne)
    as (k & mx & Hk & Hmx & Hn & _ & Hall).
  exists k, mx. auto.
Defined.

(** At the 100th percentile the threshold is the largest value. *)
Lemma linear_percentile_one (xs : list Q) (v : Q) :
  linear_percentile 1 xs v -> forall x, In x xs -> x <= v.
Proof.
  intros (s & i & lo & hi & Hperm & Hsorted & [Hi1 Hi2] & Hlo & Hhi & Hv) x Hx.
  assert (Hlen : length s = length xs) by now apply Permutation_length.
  assert (Hi : S i = length xs).
  { assert (Hlt : (i < length s)%nat) by (apply nth_error_Some; congruence).
    rewrite Qmult_1_l, of_nat_pred in Hi2.
    unfold of_nat in Hi2. change 1 with (inject_Z 1) in Hi2.
    rewrite <- inject_Z_plus, <- Zlt_Qlt in Hi2. lia. }
  assert (Hhi' : hi = lo).
  { destruct Hhi as [Hhi|[_ E]]; [|exact E].
    assert (Hlt : (S i < length s)%nat) by (apply nth_error_Some; congruence).
    lia. }
  subst hi. assert (E : v == lo) by (rewrite Hv; ring). rewrite E.
  apply (Permutation_in _ (Permutation_sym Hperm)) in Hx.
  apply In_nth_error in Hx. destruct Hx as [j Hj].
  assert (Hjlt : (j < length s)%nat) by (apply nth_error_Some; congruence).
  eapply (sorted_nth_error s j i); [exact Hsorted | lia | exact Hj | exact Hlo].
Qed.

(** X6.  Trimming at a percentile in (0, 1] never empties a table that has
    rows, and at the 100th percentile it drops nothing; so whenever the
    filtered table has rows the ranking and the work-mode pie of Home.py
    are drawn. *)
Theorem trimming_keeps_a_row :
  forall (p : Q) (df : Table),
    0 < p <= 1 -> df <> [] ->
    Home.outlier_removal p df <> [] /\
    Home.outlier_removal 1 df = df /\
    (exists top, Home.top_job_titles (Home.df_vis df) = Some top) /\
    (exists vc, Home.remote_ratio (Home.df_vis df) = Some vc).
Proof.
  assert (Hkeeps : forall p df, 0 < p <= 1 -> df <> [] ->
                                Home.outlier_removal p df <> []).
  { intros p df [Hp0 Hp1] Hne.
    assert (Hxs : map Salary_In_Usd df <> []).
    { intros E. apply map_eq_nil in E. contradiction. }
    destruct (quantile_linear p _ Hxs (Qlt_le_weak _ _ Hp0) Hp1)
      as (v & Hq & Hlin).
    destruct (linear_percentile_between _ _ _ Hlin) as (lo & _ & Hlo & _ & Hle & _).
    destruct (in_salaries df lo Hlo) as (r & Hr & E).
    unfold Home.outlier_removal. apply empty_false in Hne. rewrite Hne.
    cbn [negb]. rewrite Hq. intros Hnil.
    assert (Hin : In r (filter (fun r0 => fleb (Fin (Salary_In_Usd r0)) (Fin v)) df)).
    { apply filter_In. split; [exact Hr|]. simpl. apply Qle_bool_iff.
      now rewrite E. }
    rewrite Hnil in Hin. contradiction. }
  intros p df Hp Hne. split; [now apply Hkeeps|]. split.
  - assert (Hxs : map Salary_In_Usd df <> []).
    { intros E. apply map_eq_nil in E. contradiction. }
    destruct (quantile_linear 1 _ Hxs) as (v & Hq & Hlin);
      [discriminate | apply Qle_refl |].
    unfold Home.outlier_removal. apply empty_false in Hne. rewrite Hne.
    cbn [negb]. rewrite Hq. apply filter_all. intros r Hr.
    simpl. apply Qle_bool_iff. apply (linear_percentile_one _ _ Hlin).
    now apply in_map.
  - assert (Hvis : Home.df_vis df <> []).
    { apply Hkeeps; [|exact Hne]. split; [reflexivity | discriminate]. }
    apply empty_false in Hvis.
    unfold Home.top_job_titles, Home.remote_ratio. rewrite Hvis.
    split; eexists; reflexivity.
Qed.

Lemma trimming_keeps_a_row_witness :
  0 < 99 # 100 <= 1 /\ with_outlier <> [] /\
  Home.outlier_removal (99 # 100) with_outlier <> [] /\
  Home.outlier_removal 1 with_outlier = with_outlier.
Proof.
  assert (Hp : 0 < 99 # 100 <= 1) by (split; [reflexivity | discriminate]).
  assert (Hne : with_outlier <> []) by discriminate.
  split; [exact Hp|]. split; [exact Hne|].
  destruct (trimming_keeps_a_row (99 # 100) with_outlier Hp Hne) as (H1 & H2 & _).
  split; [exact H1 | exact H2].
Defined.

(** ** The trend message (Home.py) *)

Lemma nunique_two {A : Type} (eqb : A -> A -> bool)
    (eqb_eq : forall a b, eqb a b = true <-> a = b) (l : list A) :
  (1 < nunique eqb l)%nat <-> exists x y, In x l /\ In y l /\ x <> y.
Proof.
  unfold nunique.
  pose proof (unique_NoDup eqb eqb_eq l) as Hnd.
  pose proof (unique_In eqb eqb_eq l) as Hin.
  destruct (unique eqb l) as [|a [|b u]]; simpl; split.
  - lia.
  - intros (x & _ & Hx & _). apply Hin in Hx. contradiction.
  - lia.
  - intros (x & y & Hx & Hy & Hne). apply Hin in Hx, Hy.
    destruct Hx as [<-|[]], Hy as [<-|[]]. congruence.
  - intros _. exists a, b. split; [|split].
    + apply Hin. simpl. auto.
    + apply Hin. simpl. auto.
    + intros ->. inversion Hnd as [|? ? Hnotin _]. apply Hnotin. simpl. auto.
  - lia.
Qed.

(** X7.  The trend message of Home.py is shown exactly when two rows of
    the filtered table differ in year.  It carries the growth figure as it
    was computed: as "growth" when the figure is a number above zero or
    [inf], as "decrease" when it is zero, a number below zero, [-inf] or
    [nan]. *)
Theorem trend_shown_for_two_years :
  forall df : Table,
    ((exists r1 r2, In r1 df /\ In r2 df /\ Year r1 <> Year r2) <->
     (exists i, Home.trend df = Some i)) /\
    (forall i, Home.trend df = Some i ->
       exists g, Home.growth df = Some g /\
         ((i = Home.growth_trend g /\
           (g = PInf \/ exists q, g = Fin q /\ 0 < q)) \/
          (i = Home.decrease_trend g /\
           (g = NInf \/ g = NaN \/ exists q, g = Fin q /\ q <= 0)))).
Proof.
  intros df.
  assert (Hguard : negb (empty df) && (1 <? nunique Z.eqb (map Year df))%nat
                   = true
                   <-> exists r1 r2, In r1 df /\ In r2 df /\ Year r1 <> Year r2).
  { rewrite andb_true_iff, Nat.ltb_lt, (nunique_two Z.eqb Z.eqb_eq). split.
    - intros [_ (x & y & Hx & Hy & Hne)].
      apply in_map_iff in Hx, Hy.
      destruct Hx as (r1 & <- & H1), Hy as (r2 & <- & H2). now exists r1, r2.
    - intros (r1 & r2 & H1 & H2 & Hne). split.
      + destruct df; [contradiction | reflexivity].
      + exists (Year r1), (Year r2). repeat split; auto using in_map. }
  unfold Home.trend, Home.growth.
  destruct (negb (empty df) && (1 <? nunique Z.eqb (map Year df))%nat).
  - split.
    + split; [intros _; eexists; reflexivity | intros _; now apply Hguard].
    + intros i Hi. injection Hi as <-. eexists. split; [reflexivity|].
      match goal with |- context [fgtb ?x _] => destruct x as [q| | |] end;
        cbn [fgtb fleb negb].
      * destruct (Qle_bool q 0) eqn:E; cbn [negb].
        -- right. split; [reflexivity|]. right. right. exists q.
           split; [reflexivity|]. now apply Qle_bool_iff.
        -- left. split; [reflexivity|]. right. exists q.
           split; [reflexivity|]. apply Qnot_le_lt. intros Hle.
           apply Qle_bool_iff in Hle. congruence.
      * left. split; [reflexivity|]. now left.
      * right. split; [reflexivity|]. now left.
      * right. split; [reflexivity|]. right. now left.
  - split.
    + split; [intros H; apply Hguard in H; discriminate
             | intros [i Hi]; discriminate].
    + intros i Hi. discriminate.
Qed.

(** ** The comparison figure of 0_Main_Courts.py *)

Lemma selected_keys_among {R : Type} (key : R -> string) (df : list R)
    (a b k : string) :
  In k (map key (filter (fun r => isin String.eqb (key r) [a; b]) df)) ->
  (k = a \/ k = b) /\ In k (map key df).
Proof.
  intros H. apply in_map_iff in H. destruct H as (r & <- & Hr).
  apply filter_In in Hr. destruct Hr as [Hr Hsel].
  apply (isin_In String.eqb _ _ String.eqb_eq) in Hsel. simpl in Hsel.
  split; [intuition | now apply in_map].
Qed.

Lemma NoDup_all_same {A : Type} (l : list A) (a : A) :
  NoDup l -> (forall x, In x l -> x = a) -> (length l <= 1)%nat.
Proof.
  intros Hnd Hall. destruct l as [|x [|y l]]; simpl; try lia.
  exfalso. inversion Hnd as [|? ? Hnotin _]; subst. apply Hnotin.
  rewrite (Hall x), (Hall y); simpl; auto.
Qed.

Lemma comp_length (m : Main_Courts.moeda) (df_f : Table) (c1 c2 : string) :
  c1 = c2 \/ ~ In c1 (map Main_Courts.cargo df_f)
  \/ ~ In c2 (map Main_Courts.cargo df_f) ->
  (length (Main_Courts.comp m df_f c1 c2) <= 1)%nat.
Proof.
  intros Hcase. unfold Main_Courts.comp.
  rewrite groupby_agg_rows, length_map.
  set (sel := filter (fun r => isin String.eqb (Main_Courts.cargo r) [c1; c2]) df_f).
  assert (Hnd : NoDup (sort String.leb (unique String.eqb
                                          (map Main_Courts.cargo sel)))).
  { eapply Permutation_NoDup; [symmetry; apply sort_perm|].
    apply unique_NoDup, String.eqb_eq. }
  assert (Hkeys : forall k, In k (sort String.leb
                                    (unique String.eqb (map Main_Courts.cargo sel)))
                            -> (k = c1 \/ k = c2)
                               /\ In k (map Main_Courts.cargo df_f)).
  { intros k Hk. apply (proj1 (sort_In String.leb _ k)) in Hk.
    apply (proj1 (unique_In String.eqb String.eqb_eq _ k)) in Hk.
    unfold sel in Hk. now apply selected_keys_among in Hk. }
  destruct Hcase as [E|[Habs|Habs]].
  - apply (NoDup_all_same _ c1 Hnd). intros k Hk.
    destruct (Hkeys k Hk) as [[->| ->] _]; congruence.
  - apply (NoDup_all_same _ c2 Hnd). intros k Hk.
    destruct (Hkeys k Hk) as [[->| ->] Hin]; [contradiction | reflexivity].
  - apply (NoDup_all_same _ c1 Hnd). intros k Hk.
    destruct (Hkeys k Hk) as [[->| ->] Hin]; [reflexivity | contradiction].
Qed.

Lemma selectbox_accepts_second {A : Type} (options : list A) :
  selectbox_accepts options 1 = true
  <-> options = [] \/ (2 <= length options)%nat.
Proof.
  unfold selectbox_accepts.
  destruct options as [|a [|b l]]; simpl; split; auto; try lia.
  - intros. discriminate.
  - intros [H|H]; [discriminate | lia].
Qed.

Lemma cargos_length (table : Table) :
  length (Main_Courts.cargos table)
  = nunique String.eqb (map Main_Courts.cargo table).
Proof. unfold Main_Courts.cargos, nunique. apply sort_length. Qed.

Lemma cargos_In (table : Table) (c : string) :
  In c (Main_Courts.cargos table) <-> In c (map Main_Courts.cargo table).
Proof.
  unfold Main_Courts.cargos.
  rewrite (sort_In String.leb). apply unique_In, String.eqb_eq.
Qed.

(** X8.  The comparison figure reads the second row of the two-role frame.
    On a data set with two or more roles, so that both selectboxes have
    their preselected second option, choosing the same role twice, or a
    role that has no row left after filtering, leaves that frame with at
    most one row, and the page ends in [KeyError] instead of rendering. *)
Theorem delta_needs_two_groups :
  forall (table : Table) (m : Main_Courts.moeda) (anos : list Z)
         (senioridades contratos tamanhos : list string) (c1 c2 : string),
    let df_f := Main_Courts.filtrar table anos senioridades contratos tamanhos in
    df_f <> [] ->
    (2 <= length (Main_Courts.cargos table))%nat ->
    In c1 (Main_Courts.cargos table) -> In c2 (Main_Courts.cargos table) ->
    c1 = c2 \/ ~ In c1 (map Main_Courts.cargo df_f)
    \/ ~ In c2 (map Main_Courts.cargo df_f) ->
    Main_Courts.delta (Main_Courts.comp m df_f c1 c2) = Raise (KeyError "1") /\
    Main_Courts.render table m anos senioridades contratos tamanhos c1 c2
    = Raised (KeyError "1").
Proof.
  intros table m anos senioridades contratos tamanhos c1 c2 df_f
         Hne Htwo _ _ Hcase.
  assert (Hdelta : Main_Courts.delta (Main_Courts.comp m df_f c1 c2)
                   = Raise (KeyError "1")).
  { pose proof (comp_length m df_f c1 c2 Hcase) as Hlen.
    unfold Main_Courts.delta, Main_Courts.loc.
    replace (nth_error (Main_Courts.comp m df_f c1 c2) 1) with
      (@None (string * (float64 * float64))); [reflexivity|].
    symmetry. apply nth_error_None. exact Hlen. }
  split; [exact Hdelta|].
  unfold Main_Courts.render. fold df_f.
  apply empty_false in Hne. rewrite Hne, Hdelta.
  rewrite (proj2 (selectbox_accepts_second _) (or_intror Htwo)).
  reflexivity.
Qed.

Lemma delta_needs_two_groups_witness :
  Main_Courts.render tied_titles Main_Courts.USD
    (Main_Courts_Charts.anos tied_titles)
    (Main_Courts_Charts.senioridades tied_titles)
    (Main_Courts_Charts.contratos tied_titles)
    (Main_Courts_Charts.tamanhos tied_titles)
    "Data Analyst" "Data Analyst"
  = Raised (KeyError "1").
Proof.
  apply (delta_needs_two_groups tied_titles Main_Courts.USD).
  - discriminate.
  - vm_compute. lia.
  - vm_compute. auto.
  - vm_compute. auto.
  - left. reflexivity.
Defined.

Lemma isin_pair_swap (a b k : string) :
  isin String.eqb k [a; b] = isin String.eqb k [b; a].
Proof. unfold isin. simpl. rewrite !orb_false_r. apply orb_comm. Qed.

(** X9.  The figure is read off the frame in alphabetical order of the two
    roles, not in the order they were chosen: when the second role sorts
    before the first, what the page presents as the excess of the second
    role over the first is (mean of the first / mean of the second - 1)
    x 100. *)
Theorem delta_follows_alphabetical_order :
  forall (df_f : Table) (m : Main_Courts.moeda) (c1 c2 : string),
    String.ltb c2 c1 = true ->
    In c1 (map Main_Courts.cargo df_f) -> In c2 (map Main_Courts.cargo df_f) ->
    let mean_1 := Qmean (group_values Main_Courts.cargo (Main_Courts.salario m)
                                      df_f c1) in
    let mean_2 := Qmean (group_values Main_Courts.cargo (Main_Courts.salario m)
                                      df_f c2) in
    ~ mean_2 == 0 ->
    exists d, Main_Courts.delta (Main_Courts.comp m df_f c1 c2) = Ok (Fin d) /\
              d == (mean_1 / mean_2 - 1) * 100.
Proof.
  intros df_f m c1 c2 Hlt H1 H2 mean_1 mean_2 Hnz.
  unfold Main_Courts.comp.
  rewrite (filter_ext _ (fun r => isin String.eqb (Main_Courts.cargo r) [c2; c1]))
    by (intros r; apply isin_pair_swap).
  rewrite groupby_agg_pair by assumption.
  unfold Main_Courts.delta, Main_Courts.loc. cbn [nth_error bind agg_row fst snd].
  rewrite !mean_group_values by assumption.
  fold mean_1 mean_2. rewrite fdiv_finite by exact Hnz.
  eexists. split; reflexivity.
Qed.

Lemma delta_follows_alphabetical_order_witness :
  exists d,
    Main_Courts.delta (Main_Courts.comp Main_Courts.USD tied_titles
                                        "Data Scientist" "Data Analyst")
    = Ok (Fin d) /\
    0 < d.
Proof.
  destruct (delta_follows_alphabetical_order tied_titles Main_Courts.USD
              "Data Scientist" "Data Analyst") as (d & Hd & Heq).
  - reflexivity.
  - simpl. auto.
  - simpl. auto.
  - vm_compute. discriminate.
  - exists d. split; [exact Hd|]. rewrite Heq. reflexivity.
Defined.

(** ** The country ranking and the heat map (0_Main_Courts.py) *)



Lemma pair_leb_iff (a b : string * string) :
  pair_leb a b = true <->
  String_as_OT.lt (fst a) (fst b)
  \/ (fst a = fst b /\ String.leb (snd a) (snd b) = true).
Proof.
  unfold pair_leb. destruct (String.eqb_spec (fst a) (fst b)) as [E|E].
  - split; [auto|]. intros [H|[_ H]]; [|exact H].
    exfalso. now apply (String_as_OT.lt_not_eq _ _ H).
  - rewrite string_leb_iff. tauto.
Qed.

Lemma string_lt_asym (a b : string) :
  String_as_OT.lt a b -> String_as_OT.lt b a -> False.
Proof.
  intros H1 H2.
  exact (String_as_OT.lt_not_eq _ _ (String_as_OT.lt_trans _ _ _ H1 H2) eq_refl).
Qed.

#[export] Instance pair_key : KeyOrder pair_eqb pair_leb.
Proof.
  split.
  - intros [a1 a2] [b1 b2]. unfold pair_eqb. simpl.
    rewrite andb_true_iff, !String.eqb_eq. split; [intros [-> ->] | intros E];
      [reflexivity | inversion E; auto].
  - split.
    + intros a b. rewrite !pair_leb_iff.
      destruct (String.eqb_spec (fst a) (fst b)) as [E|E].
      * destruct (String.leb_total (snd a) (snd b)) as [H|H];
          [left | right]; right; split; auto.
      * destruct (String.leb_total (fst a) (fst b)) as [H|H];
          apply string_leb_iff in H; destruct H as [E'|L].
        -- contradiction.
        -- left. now left.
        -- symmetry in E'. contradiction.
        -- right. now left.
    + intros a b c. rewrite !pair_leb_iff.
      intros [L1|[E1 H1]] [L2|[E2 H2]].
      * left. eapply String_as_OT.lt_trans; eassumption.
      * left. now rewrite <- E2.
      * left. now rewrite E1.
      * right. split; [congruence|].
        eapply (leb_trans (leb := String.leb)); eassumption.
  - intros [a1 a2] [b1 b2]. rewrite !pair_leb_iff. simpl.
    intros [L1|[E1 H1]] [L2|[E2 H2]].
    + exfalso. eapply string_lt_asym; eassumption.
    + subst. exfalso. eapply string_lt_asym; eassumption.
    + subst. exfalso. eapply string_lt_asym; eassumption.
    + subst. f_equal. now apply String.leb_antisym.
Qed.

(** X12.  The heat map has one cell per pair (senioridade, tamanho_empresa)
    that some row of the filtered table holds, with the mean salary of the
    rows of that pair, and no cell for a pair that no row holds; the cells
    come in lexicographic order of the pair. *)
Theorem heat_has_the_observed_pairs :
  forall (m : Main_Courts.moeda) (df_f : Table),
    let pair := fun r => (Main_Courts.senioridade r, Main_Courts.tamanho_empresa r) in
    group_means pair (Main_Courts.salario m) df_f (Main_Courts_Charts.heat m df_f)
    /\ (forall s t,
           (exists v, In ((s, t), v) (Main_Courts_Charts.heat m df_f)) <->
           (exists r, In r df_f /\ Main_Courts.senioridade r = s
                      /\ Main_Courts.tamanho_empresa r = t))
    /\ StronglySorted
         (fun a b => pair_leb (fst a) (fst b) = true /\ fst a <> fst b)
         (Main_Courts_Charts.heat m df_f).
Proof.
  intros m df_f pair. unfold Main_Courts_Charts.heat. fold pair.
  split; [apply groupby_mean_spec; exact pair_key|].
  split; [|apply groupby_mean_sorted; exact pair_key].
  intros s t. split.
  - intros [v Hv].
    apply (groupby_mean_In pair_eqb pair_leb (KeyOrder0 := pair_key)) in Hv.
    destruct Hv as [Hin _]. apply in_map_iff in Hin.
    destruct Hin as (r & E & Hr). exists r. inversion E. auto.
  - intros (r & Hr & <- & <-). eexists.
    apply (groupby_mean_In pair_eqb pair_leb (KeyOrder0 := pair_key)).
    split; [|reflexivity]. now apply (in_map pair).
Qed.

(** ** The pages that read the data set directly *)

Lemma traverse_length {A B : Type} (f : A -> result B) (l : list A)
    (l' : list B) :
  traverse f l = Ok l' -> length l' = length l.
Proof.
  revert l'. induction l as [|x l IH]; simpl; intros l' H.
  - injection H as <-. reflexivity.
  - destruct (f x) as [y|e]; simpl in H; [|discriminate].
    destruct (traverse f l) as [ys|e]; simpl in H; [|discriminate].
    injection H as <-. simpl. f_equal. now apply IH.
Qed.

Lemma column_length (df : DataFrame) (name : string) (cells : list cell) :
  column df name = Ok cells -> length cells = length (values df).
Proof.
  unfold column. destruct (isin String.eqb name (columns df)); [|discriminate].
  revert cells. induction (values df) as [|row rows IH]; simpl; intros cells H.
  - injection H as <-. reflexivity.
  - destruct (getitem (columns df) row name) as [v|e]; simpl in H; [|discriminate].
    destruct (fold_right _ _ rows) as [vs|e]; simpl in H; [|discriminate].
    injection H as <-. simpl. f_equal. now apply IH.
Qed.

Lemma column_missing (df : DataFrame) (name : string) :
  ~ In name (columns df) -> column df name = Raise (KeyError name).
Proof.
  intros H. unfold column.
  destruct (isin String.eqb name (columns df)) eqn:E; [|reflexivity].
  apply (isin_In String.eqb _ _ String.eqb_eq) in E. contradiction.
Qed.

(** X13.  The Overview page has no guard of its own.  Without a "usd"
    column it ends in [KeyError]; when the column can be read as numbers it
    renders with the number of rows as its count; on a data set with a
    single row the average and the median are both that row's salary, and
    on a data set without rows both are [nan]. *)
Theorem overview_outcomes :
  forall df : DataFrame,
    (~ In "usd" (columns df) -> Overview.page df = Raised (KeyError "usd"))
    /\ (forall usd,
           bind (column df "usd") (traverse as_num) = Ok usd ->
           exists v,
             Overview.page df = Rendered v /\
             Overview.view_total v = length usd /\
             Overview.view_total v = length (values df) /\
             (usd = [] ->
              Overview.view_average v = NaN /\ Overview.view_median v = NaN) /\
             (forall x, usd = [x] ->
              exists avg md,
                Overview.view_average v = Fin avg /\
                Overview.view_median v = Fin md /\
                avg == x /\ md == x)).
Proof.
  intros df. split.
  - intros H. unfold Overview.page. now rewrite column_missing.
  - intros usd Husd. unfold Overview.page. rewrite Husd. cbn [run].
    eexists. split; [reflexivity|].
    cbn [Overview.view_total Overview.view_average Overview.view_median].
    split; [|split; [reflexivity|]].
    + destruct (column df "usd") as [cells|e] eqn:Ecol; [|discriminate].
      simpl in Husd. apply traverse_length in Husd.
      apply column_length in Ecol. congruence.
    + split; [intros ->; split; reflexivity|].
      intros x ->.
      destruct (quantile_linear (1 # 2) [x]) as (md & Hmd & Hlin);
        [discriminate | discriminate | discriminate |].
      destruct (linear_percentile_between _ _ _ Hlin)
        as (lo & hi & Hlo & Hhi & Hle1 & Hle2).
      destruct Hlo as [<-|[]], Hhi as [<-|[]].
      exists (Qmean [x]), md.
      split; [reflexivity|]. split; [exact Hmd|]. split.
      * change (Qmean [x]) with ((x + 0) / 1). field.
      * now apply Qle_antisym.
Qed.

Lemma overview_outcomes_witness :
  exists v, Overview.page three_columns = Rendered v /\
            Overview.view_total v = 2%nat.
Proof.
  destruct (overview_outcomes three_columns) as [_ H].
  destruct (H [inject_Z 10; inject_Z 20] eq_refl) as (v & Hv & Htotal & _).
  exists v. split; [exact Hv | exact Htotal].
Defined.

Lemma map_fst_combine {A B : Type} (l : list A) (l' : list B) :
  length l = length l' -> map fst (combine l l') = l.
Proof.
  revert l'. induction l as [|x l IH]; intros [|y l'] H; simpl in *;
    try discriminate; [reflexivity|].
  f_equal. apply IH. lia.
Qed.

Lemma roles_length (cargo : list string) :
  length (Role_Comparison.roles cargo) = nunique String.eqb cargo.
Proof. unfold Role_Comparison.roles, nunique. apply sort_length. Qed.

(** X14.  The Role Comparison page has no guard of its own either.  Without
    a "cargo" column it ends in [KeyError].  On a data set with rows that
    all hold the same role the second role box has no option of index 1
    and the page ends in [StreamlitValueOutOfRangeError].  On a data set
    with two or more roles, when both columns can be read, any two roles
    taken from the boxes render: no figure when the same role is chosen
    twice, a figure otherwise. *)
Theorem role_comparison_outcomes :
  forall (df : DataFrame) (role_a role_b : string),
    (~ In "cargo" (columns df) ->
     Role_Comparison.page df role_a role_b = Raised (KeyError "cargo"))
    /\ (forall cargo,
           bind (column df "cargo") (traverse as_str) = Ok cargo ->
           (cargo <> [] ->
            (forall c c', In c cargo -> In c' cargo -> c = c') ->
            Role_Comparison.page df role_a role_b
            = Raised StreamlitValueOutOfRangeError)
           /\
           (forall usd,
               bind (column df "usd") (traverse as_num) = Ok usd ->
               (exists c c', In c cargo /\ In c' cargo /\ c <> c') ->
               In role_a (Role_Comparison.roles cargo) ->
               In role_b (Role_Comparison.roles cargo) ->
               exists v,
                 Role_Comparison.page df role_a role_b = Rendered v /\
                 (role_a = role_b -> Role_Comparison.view_diff v = None) /\
                 (role_a <> role_b ->
                  exists figure, Role_Comparison.view_diff v = Some figure))).
Proof.
  intros df role_a role_b. split.
  - intros H. unfold Role_Comparison.page. now rewrite column_missing.
  - intros cargo Hcargo. split.
    + intros Hne Hsame.
      unfold Role_Comparison.page. rewrite Hcargo. cbn [run].
      assert (Hone : length (Role_Comparison.roles cargo) = 1%nat).
      { rewrite roles_length.
        assert (H1 : ~ (1 < nunique String.eqb cargo)%nat).
        { intros H. apply (nunique_two String.eqb String.eqb_eq) in H.
          destruct H as (c & c' & Hc & Hc' & Hdiff). apply Hdiff. now apply Hsame. }
        assert (H0 : nunique String.eqb cargo <> 0%nat).
        { unfold nunique. intros H. apply length_zero_iff_nil in H.
          destruct cargo; [congruence | discriminate]. }
        lia. }
      destruct (Role_Comparison.roles cargo) as [|a [|b l]];
        try discriminate. reflexivity.
    + intros usd Husd Htwo Ha Hb.
      assert (Hlen : length cargo = length usd).
      { destruct (column df "cargo") as [c1|e] eqn:E1; [|discriminate].
        destruct (column df "usd") as [c2|e] eqn:E2; [|discriminate].
        simpl in Hcargo, Husd.
        apply traverse_length in Hcargo, Husd.
        apply column_length in E1, E2. congruence. }
      pose proof (map_fst_combine cargo usd Hlen) as Hkeys.
      assert (Hbox : (2 <= length (Role_Comparison.roles cargo))%nat).
      { rewrite roles_length.
        now apply (nunique_two String.eqb String.eqb_eq). }
      assert (Hin : forall c, In c (Role_Comparison.roles cargo) ->
                              In c (map fst (combine cargo usd))).
      { intros c Hc. rewrite Hkeys. unfold Role_Comparison.roles in Hc.
        apply (proj1 (sort_In String.leb _ c)) in Hc.
        now apply (proj1 (unique_In String.eqb String.eqb_eq _ c)) in Hc. }
      apply Hin in Ha, Hb.
      unfold Role_Comparison.page. rewrite Hcargo, Husd. cbn [run].
      rewrite (proj2 (selectbox_accepts_second _) (or_intror Hbox)).
      cbn [negb].
      replace (empty (Role_Comparison.roles cargo)) with false
        by (destruct (Role_Comparison.roles cargo); [simpl in Hbox; lia
                                                    | reflexivity]).
      unfold Role_Comparison.diff.
      destruct (String.eqb_spec role_a role_b) as [E|E]; cbn [negb].
      * eexists. split; [reflexivity|]. split; [reflexivity | contradiction].
      * rewrite !mean_of_role by auto. cbn [bind run].
        eexists. split; [reflexivity|]. split; [contradiction|].
        intros _. eexists. reflexivity.
Qed.

Lemma role_comparison_outcomes_witness :
  exists v figure,
    Role_Comparison.page three_columns "Data Analyst" "Data Engineer"
    = Rendered v /\
    Role_Comparison.view_diff v = Some figure.
Proof.
  destruct (role_comparison_outcomes three_columns "Data Analyst" "Data Engineer")
    as [_ H].
  destruct (H ["Data Analyst"; "Data Engineer"] eq_refl) as [_ Hrender].
  destruct (Hrender [inject_Z 10; inject_Z 20] eq_refl)
    as (v & Hv & _ & Hfig).
  - exists "Data Analyst", "Data Engineer". simpl. split; [auto|].
    split; [auto | discriminate].
  - vm_compute. auto.
  - vm_compute. auto.
  - destruct Hfig as [figure Hfigure]; [discriminate|].
    now exists v, figure.
Defined.

(** ** The remaining charts of Home.py *)

Lemma NoDup_among_two {A : Type} (l : list A) (a b : A) :
  NoDup l -> (forall x, In x l -> x = a \/ x = b) -> (length l <= 2)%nat.
Proof.
  intros Hnd Hall. destruct l as [|x [|y [|z l]]]; simpl; try lia.
  exfalso.
  inversion Hnd as [|? ? Hx Hnd1]; subst.
  inversion Hnd1 as [|? ? Hy _]; subst.
  simpl in Hx, Hy.
  destruct (Hall x) as [-> | ->], (Hall y) as [-> | ->], (Hall z) as [-> | ->];
    simpl; auto 6; tauto.
Qed.

(** X15.  The job-title comparison of Home.py is not computed on an empty
    filtered table; otherwise its frame has one row for each of the two
    chosen titles that the filtered table holds and no other row, at most
    two rows, smaller title first, each with the mean and the median of the
    salaries of that title. *)
Theorem comparison_has_the_chosen_titles :
  forall (df_filtered : Table) (job_title_a job_title_b : string),
    df_filtered <> [] ->
    exists rows,
      Home.comparison df_filtered job_title_a job_title_b = Some rows /\
      (forall k, In k (map fst rows) <->
                 (k = job_title_a \/ k = job_title_b)
                 /\ In k (map Job_Title df_filtered)) /\
      (length rows <= 2)%nat /\
      StronglySorted (fun a b => String.ltb a b = true) (map fst rows) /\
      (forall k avg md,
          In (k, (avg, md)) rows ->
          avg = Fin (Qmean (group_values Job_Title Salary_In_Usd df_filtered k))
          /\ md = median (group_values Job_Title Salary_In_Usd df_filtered k)
          /\ exists m, md = Fin m).
Proof.
  intros df a b Hne. unfold Home.comparison.
  apply empty_false in Hne. rewrite Hne. cbn [negb].
  eexists. split; [reflexivity|].
  set (sel := filter (fun r => isin String.eqb (Job_Title r) [a; b]) df).
  set (keys := sort String.leb (unique String.eqb (map Job_Title sel))).
  assert (Hrows : groupby_agg String.eqb String.leb Job_Title Salary_In_Usd sel
                  = map (agg_row Job_Title Salary_In_Usd sel) keys)
    by apply groupby_agg_rows.
  assert (Hfst : map fst (map (agg_row Job_Title Salary_In_Usd sel) keys) = keys).
  { rewrite map_map. apply map_id. }
  assert (Hkeys : forall k, In k keys <->
                            (k = a \/ k = b) /\ In k (map Job_Title df)).
  { intros k. unfold keys.
    rewrite sort_In, (unique_In String.eqb String.eqb_eq). split.
    - apply selected_keys_among.
    - intros [Hk Hin]. apply in_map_iff in Hin. destruct Hin as (r & <- & Hr).
      apply in_map. apply filter_In. split; [exact Hr|].
      apply (isin_In String.eqb _ _ String.eqb_eq). simpl. intuition. }
  assert (Hnd : NoDup keys).
  { eapply Permutation_NoDup; [symmetry; apply sort_perm|].
    apply unique_NoDup, String.eqb_eq. }
  rewrite Hrows, Hfst. split; [exact Hkeys|]. split; [|split].
  - rewrite length_map. apply (NoDup_among_two keys a b Hnd).
    intros k Hk. now apply Hkeys.
  - eapply StronglySorted_weaken;
      [|apply StronglySorted_strict; [apply sort_sorted; exact _ | exact Hnd]].
    intros x y H. now apply string_ltb_iff.
  - intros k avg md Hin. apply in_map_iff in Hin.
    destruct Hin as (k' & E & Hk'). unfold agg_row in E. inversion E; subst.
    apply Hkeys in Hk'. destruct Hk' as [Hk Hin].
    unfold sel. rewrite group_values_selected by exact Hk.
    split; [now apply mean_group_values|]. split; [reflexivity|].
    destruct (median_between (group_values Job_Title Salary_In_Usd df k))
      as (m & _ & _ & Hm & _); [now apply group_values_nonempty|].
    now exists m.
Qed.

Lemma comparison_has_the_chosen_titles_witness :
  tied_titles <> [] /\
  exists rows,
    Home.comparison tied_titles "Data Scientist" "Data Analyst" = Some rows /\
    map fst rows = ["Data Analyst"; "Data Scientist"].
Proof.
  assert (Hne : tied_titles <> []) by discriminate.
  split; [exact Hne|].
  destruct (comparison_has_the_chosen_titles tied_titles "Data Scientist"
              "Data Analyst" Hne) as (rows & Hrows & _).
  exists rows. split; [exact Hrows|].
  vm_compute in Hrows. injection Hrows as <-. reflexivity.
Defined.

(** X16.  The country map of Home.py is drawn from the Data Scientist rows
    only: there is no map when the trimmed table holds no such row, and
    otherwise one entry per country of residence of a Data Scientist, in
    ascending order of the country code, with the mean salary of the Data
    Scientists of that country. *)
Theorem country_map_reads_data_scientists_only :
  forall df_vis : Table,
    let df_ds := filter (fun r => String.eqb (Job_Title r) "Data Scientist") df_vis in
    retains (fun r => Job_Title r = "Data Scientist") df_vis df_ds
    /\ ((forall r, In r df_vis -> Job_Title r <> "Data Scientist") ->
        Home.average_country_salary df_vis = None)
    /\ ((exists r, In r df_vis /\ Job_Title r = "Data Scientist") ->
        exists groups,
          Home.average_country_salary df_vis = Some groups /\
          group_means Employee_Residence_Iso3 Salary_In_Usd df_ds groups /\
          StronglySorted (fun a b => String.ltb (fst a) (fst b) = true) groups).
Proof.
  intros df_vis df_ds.
  assert (R : retains (fun r => Job_Title r = "Data Scientist") df_vis df_ds).
  { apply retains_filter. intros r. apply String.eqb_eq. }
  split; [exact R|]. unfold Home.average_country_salary. fold df_ds. split.
  - intros Hnone. destruct df_ds as [|r rest] eqn:E; [reflexivity|].
    exfalso. assert (Hr : In r (r :: rest)) by now left.
    apply (retains_In _ _ _ R) in Hr. destruct Hr as [Hr Ht].
    exact (Hnone r Hr Ht).
  - intros (r & Hr & Ht).
    assert (Hin : In r df_ds) by (apply (retains_In _ _ _ R); auto).
    destruct df_ds as [|r0 rest] eqn:E; [contradiction|]. cbn [empty].
    eexists. split; [reflexivity|].
    split; [apply groupby_mean_spec; exact string_key|].
    eapply StronglySorted_weaken;
      [|apply (groupby_mean_sorted String.eqb String.leb
                                   (KeyOrder0 := string_key))].
    intros x y H. now apply string_ltb_iff.
Qed.

Lemma country_map_reads_data_scientists_only_witness :
  exists groups,
    Home.average_country_salary tied_titles = Some groups /\
    map fst groups = ["USA"].
Proof.
  destruct (country_map_reads_data_scientists_only tied_titles) as (_ & _ & H).
  destruct H as (groups & Hg & _).
  - exists (observation 2021 "Data Scientist" 100). split; [now left | reflexivity].
  - exists groups. split; [exact Hg|].
    vm_compute in Hg. injection Hg as <-. reflexivity.
Defined.

(** ** When 0_Main_Courts.py renders *)

Lemma string_lt_total (a b : string) :
  a <> b -> String.ltb a b = true \/ String.ltb b a = true.
Proof.
  intros Hne. rewrite !string_ltb_iff.
  destruct (String.leb_total a b); [left | right]; split; auto.
Qed.

Lemma delta_of_two_rows (m : Main_Courts.moeda) (df_f : Table) (c1 c2 : string) :
  c1 <> c2 ->
  In c1 (map Main_Courts.cargo df_f) -> In c2 (map Main_Courts.cargo df_f) ->
  length (Main_Courts.comp m df_f c1 c2) = 2%nat /\
  exists d, Main_Courts.delta (Main_Courts.comp m df_f c1 c2) = Ok d.
Proof.
  intros Hne H1 H2. unfold Main_Courts.comp.
  destruct (string_lt_total c1 c2 Hne) as [Hlt|Hlt].
  - rewrite groupby_agg_pair by assumption.
    split; [reflexivity | eexists; reflexivity].
  - rewrite (filter_ext _ (fun r => isin String.eqb (Main_Courts.cargo r) [c2; c1]))
      by (intros r; apply isin_pair_swap).
    rewrite groupby_agg_pair by assumption.
    split; [reflexivity | eexists; reflexivity].
Qed.

(** X5.  With two different roles that both have rows left after
    filtering, the Portuguese dashboard renders: both role boxes have their
    preselected option, the comparison frame has exactly two rows, the
    count is the number of filtered rows, and the maximum is the salary of
    a filtered row that no filtered row exceeds. *)
Theorem main_courts_renders_for_two_present_roles :
  forall (table : Table) (m : Main_Courts.moeda) (anos : list Z)
         (senioridades contratos tamanhos : list string) (c1 c2 : string),
    let df_f := Main_Courts.filtrar table anos senioridades contratos tamanhos in
    c1 <> c2 ->
    In c1 (map Main_Courts.cargo df_f) -> In c2 (map Main_Courts.cargo df_f) ->
    exists v mx,
      Main_Courts.render table m anos senioridades contratos tamanhos c1 c2
      = Rendered v /\
      In c1 (Main_Courts.cargos table) /\ In c2 (Main_Courts.cargos table) /\
      length (Main_Courts.view_comp v) = 2%nat /\
      Main_Courts.view_registros v = length df_f /\
      Main_Courts.view_maximo v = Fin mx /\
      (exists r, In r df_f /\ Main_Courts.salario m r = mx) /\
      (forall r, In r df_f -> Main_Courts.salario m r <= mx).
Proof.
  intros table m anos senioridades contratos tamanhos c1 c2 df_f Hne H1 H2.
  assert (Hrows : df_f <> []).
  { intros E. rewrite E in H1. contradiction. }
  assert (Hsub : forall c, In c (map Main_Courts.cargo df_f) ->
                           In c (map Main_Courts.cargo table)).
  { intros c Hc. apply in_map_iff in Hc. destruct Hc as (r & <- & Hr).
    apply in_map. unfold df_f, Main_Courts.filtrar in Hr.
    apply filter_In in Hr. exact (proj1 Hr). }
  assert (Hbox : selectbox_accepts (Main_Courts.cargos table) 1 = true).
  { apply selectbox_accepts_second. right.
    rewrite cargos_length.
    apply (nunique_two String.eqb String.eqb_eq).
    exists c1, c2. auto. }
  set (s := map (Main_Courts.salario m) df_f).
  assert (Hs : s <> []).
  { intros E. apply map_eq_nil in E. contradiction. }
  destruct (delta_of_two_rows m df_f c1 c2 Hne H1 H2) as [Hlen [d Hd]].
  destruct (max_spec s Hs) as (mx & Hmax & Hmx_in & Hmx).
  unfold Main_Courts.render. fold df_f.
  apply empty_false in Hrows. rewrite Hrows, Hbox, Hd. cbn [run negb].
  eexists. exists mx. split; [reflexivity|].
  cbn [Main_Courts.view_comp Main_Courts.view_registros
       Main_Courts.view_maximo]. fold s.
  split; [apply cargos_In; auto|]. split; [apply cargos_In; auto|].
  split; [exact Hlen|]. split; [reflexivity|]. split; [exact Hmax|].
  split.
  - unfold s in Hmx_in. apply in_map_iff in Hmx_in.
    destruct Hmx_in as (r & E & Hr). now exists r.
  - intros r Hr. apply Hmx. unfold s. now apply in_map.
Qed.

Lemma main_courts_renders_for_two_present_roles_witness :
  exists v,
    Main_Courts.render tied_titles Main_Courts.EUR
      (Main_Courts_Charts.anos tied_titles)
      (Main_Courts_Charts.senioridades tied_titles)
      (Main_Courts_Charts.contratos tied_titles)
      (Main_Courts_Charts.tamanhos tied_titles)
      "Data Scientist" "Data Engineer"
    = Rendered v /\
    Main_Courts.view_registros v = 5%nat.
Proof.
  destruct (main_courts_renders_for_two_present_roles tied_titles Main_Courts.EUR
              (Main_Courts_Charts.anos tied_titles)
              (Main_Courts_Charts.senioridades tied_titles)
              (Main_Courts_Charts.contratos tied_titles)
              (Main_Courts_Charts.tamanhos tied_titles)
              "Data Scientist" "Data Engineer")
    as (v & mx & Hv & _ & _ & _ & Hn & _).
  - discriminate.
  - vm_compute. auto.
  - vm_compute. auto 6.
  - exists v. split; [exact Hv|]. rewrite Hn. reflexivity.
Defined.
